(** * Criteo API Node.js client: the request / authentication / retry pipeline

    A shallow embedding of [lib/http.js] (class [HTTP_Client]), of
    [api_client.js] (class [API_Client]) and of the pipeline part of the
    class [Criteo_API_Client]: the authentication gate, the
    authenticator, the execution of a request through the transport, the
    retry decision, the dual promise / callback settlement and the
    response handlers.  Of the endpoint methods, which only build
    request descriptors, a few stand for the others: [getAccounts],
    [getReportOutput], [startAdSets] and [stopAdSets].

    Conventions of the embedding.
    - A JavaScript string is a [string]; each [ascii] stands for one code
      unit (the development stays in the range 0..255; a JSON text that
      escapes a higher code unit, as [\u0100], is outside it).
    - A JavaScript number is an IEEE-754 double; a parsed number is
      carried by the text [Number::toString] gives for it.
    - A promise is represented by the state it ends in ([Fulfilled],
      [Rejected] or [Pending] for one that is never settled); the chain
      [.then] / [.catch] of the source becomes a [match] on that state.
    - The objects the source mutates in place (the client's [token], the
      request descriptor's [retry] and [callbackExecuted]) are threaded
      explicitly: each function returns the updated value.
    - The network and the disk are an [environment]; runtime builtins
      ([JSON.parse], [encodeURIComponent], ...) are a [Platform]. *)

From Stdlib Require Import String Ascii List NArith ZArith Bool Lia.
From Stdlib Require Import DecimalString.
Import ListNotations.
Local Open Scope list_scope.
Local Open Scope string_scope.
Set Warnings "-register-all".

(** ** JavaScript values *)

(** The values [JSON.parse] can return.  A number is an IEEE-754 double;
    it is carried by its name, the text [Number::toString] gives for it
    (and [-0] for the negative zero). *)
Inductive json : Type :=
| JNull
| JBool (b : bool)
| JNumber (name : string)
| JString (s : string)
| JArray (elements : list json)
| JObject (members : list (string * json)).

Inductive jsval : Type :=
| Undefined
| Json (j : json).

Coercion Json : json >-> jsval.

(** An [Error] object, as made by [Error(msg)] and [new Error(msg)]. *)
Record error : Type := Error { message : string }.

(** [Error.prototype.toString]: the name alone when the message is empty. *)
Definition Error_toString (e : error) : string :=
  if (message e =? "")%string then "Error" else "Error: " ++ message e.

(** The state a promise ends in. *)
Inductive promise : Type :=
| Fulfilled (value : jsval)
| Rejected (reason : error)
| Pending.

(** [resolve] and [reject] on a promise that is already settled do nothing. *)
Definition settle (cell outcome : promise) : promise :=
  match cell with
  | Pending => outcome
  | _ => cell
  end.

(** ** Strings *)

(** [Number.prototype.toString] on a non-negative integer. *)
Definition N_toString (n : N) : string :=
  NilEmpty.string_of_uint (N.to_uint n).

Definition is_digit (c : ascii) : bool :=
  let n := nat_of_ascii c in (48 <=? n)%nat && (n <=? 57)%nat.

(** [s.match(/20[0-9]/) !== null]: the pattern is not anchored. *)
Fixpoint match_20_digit (s : string) : bool :=
  match s with
  | String "2" (String "0" (String c _) as rest) =>
      is_digit c || match_20_digit rest
  | String _ rest => match_20_digit rest
  | EmptyString => false
  end.

(** [s.indexOf(sub)], -1 when [sub] does not occur. *)
Definition indexOf (s sub : string) : Z :=
  match String.index 0 sub s with
  | Some i => Z.of_nat i
  | None => (-1)%Z
  end.

(** White space and line terminators removed by [String.prototype.trim]. *)
Definition is_white_space (c : ascii) : bool :=
  match nat_of_ascii c with
  | 9 | 10 | 11 | 12 | 13 | 32 | 160 => true
  | _ => false
  end.

Fixpoint trimStart (s : string) : string :=
  match s with
  | String c rest => if is_white_space c then trimStart rest else s
  | EmptyString => EmptyString
  end.

Fixpoint trimEnd (s : string) : string :=
  match s with
  | String c rest =>
      match trimEnd rest with
      | EmptyString => if is_white_space c then EmptyString else String c EmptyString
      | t => String c t
      end
  | EmptyString => EmptyString
  end.

Definition trim (s : string) : string := trimEnd (trimStart s).

(** [s.slice(0, -1)] *)
Fixpoint slice_0_m1 (s : string) : string :=
  match s with
  | String c (String _ _ as rest) => String c (slice_0_m1 rest)
  | _ => EmptyString
  end.

(** ** Objects used as string maps (headers) *)

Fixpoint obj_set {A} (o : list (string * A)) (k : string) (v : A) : list (string * A) :=
  match o with
  | [] => [(k, v)]
  | (k', v') :: rest =>
      if (k' =? k)%string then (k, v) :: rest else (k', v') :: obj_set rest k v
  end.

Fixpoint obj_get {A} (o : list (string * A)) (k : string) : option A :=
  match o with
  | [] => None
  | (k', v) :: rest => if (k' =? k)%string then Some v else obj_get rest k
  end.

(** [{...a, ...b}] *)
Definition obj_spread {A} (a b : list (string * A)) : list (string * A) :=
  fold_left (fun o kv => obj_set o (fst kv) (snd kv)) b a.

(** ** The runtime *)

(** Builtins of the JavaScript runtime and of Node's [querystring]. *)
Class Platform : Type := {
  (** [JSON.parse(text)]: the value, or the rendering of the
      [SyntaxError] it throws. *)
  JSON_parse : string -> json + string;
  (** [JSON.stringify(value)] *)
  JSON_stringify : json -> string;
  (** [ToBoolean] and [ToString] on a number, given by its name. *)
  Number_truthy : string -> bool;
  Number_toString : string -> string;
  encodeURIComponent : string -> string;
  querystring_stringify : list (string * string) -> string
}.

Section Runtime.
Context {P : Platform}.

(** [ToBoolean] *)
Definition truthy (v : jsval) : bool :=
  match v with
  | Undefined => false
  | Json JNull => false
  | Json (JBool b) => b
  | Json (JNumber n) => Number_truthy n
  | Json (JString s) => negb (s =? "")%string
  | Json (JArray _) => true
  | Json (JObject _) => true
  end.

(** [ToString] on a parsed value, as a template literal applies it:
    an array joins its elements with commas, [null] elements as the
    empty string. *)
Fixpoint json_ToString (j : json) : string :=
  match j with
  | JNull => "null"
  | JBool true => "true"
  | JBool false => "false"
  | JNumber n => Number_toString n
  | JString s => s
  | JArray l =>
      (fix join (l : list json) : string :=
         let element x := match x with JNull => "" | _ => json_ToString x end in
         match l with
         | [] => ""
         | [x] => element x
         | x :: rest => element x ++ "," ++ join rest
         end) l
  | JObject _ => "[object Object]"
  end.

Definition ToString (v : jsval) : string :=
  match v with
  | Undefined => "undefined"
  | Json j => json_ToString j
  end.

(** [value.access_token]: [None] stands for the [TypeError] thrown on
    [null]; a primitive or an array has no such property. *)
Definition get_access_token (response : json) : option jsval :=
  match response with
  | JNull => None
  | JObject members =>
      match obj_get members "access_token" with
      | Some v => Some (Json v)
      | None => Some Undefined
      end
  | _ => Some Undefined
  end.

End Runtime.

(** ** The environment: network and disk *)

(** The options object handed to [http.request] / [https.request]. *)
Record options : Type := {
  o_method : string;
  o_protocol : string;
  o_hostname : string;
  o_path : string;
  o_timeout : N;
  o_headers : list (string * string);
  o_body : option string
}.

(** What [http_request] resolves with: [{body, response}], of which the
    client reads [res.response.statusCode] and [res.body]. *)
Record response : Type := { statusCode : N; body : string }.

(** The first event that settles the promise of [http_request]. *)
Inductive net_event : Type :=
| NetEnd (res : response)   (** ['end'] of the incoming message *)
| NetError (err : string)   (** ['error'], with the rendering of its error *)
| NetTimeout.               (** ['timeout'] *)

(** [net n o] answers the request [o] issued after [n] earlier ones;
    [writeFile_error n path data] is the error, if any, that
    [fs.writeFile] reports for a write made after [n] requests. *)
Record environment : Type := {
  net : nat -> options -> net_event;
  writeFile_error : nat -> string -> string -> option string
}.

(** ** The client *)

(** The fields set by the constructors and never written again. *)
Record client : Type := {
  timeout : N;
  host : string;
  endpoint : string;
  version : string;
  id : string;
  secret : string
}.

(** [new Criteo_API_Client(id, secret)] with the default arguments. *)
Definition new_client (id secret : string) : client :=
  {| timeout := 12000; host := "api.criteo.com"; endpoint := "";
     version := "2021-01"; id := id; secret := secret |}.

Inductive verb : Type := get | post | put | patch | delete.

(** The response handlers an endpoint method can bind as [r.handler]. *)
Inductive handler : Type :=
| processAuth_bound
| processJSON_bound
| processFile_bound (filepath : string)
| processResponse_bound.

(** The request descriptor [r].  [r_callback] tells whether a callback
    function was supplied; the callback itself is the caller's code: it
    is taken to return normally, and its invocations are observed as
    [EvCallback] events. *)
Record descriptor : Type := {
  r_method : verb;
  r_path : string;
  r_query : option (list (string * string));
  r_body : option string;
  r_headers : list (string * string);
  r_handler : handler;
  r_callback : bool;
  r_retry : bool;
  r_callbackExecuted : bool
}.

Definition set_retry (r : descriptor) : descriptor :=
  {| r_method := r_method r; r_path := r_path r; r_query := r_query r;
     r_body := r_body r; r_headers := r_headers r; r_handler := r_handler r;
     r_callback := r_callback r; r_retry := true;
     r_callbackExecuted := r_callbackExecuted r |}.

Definition set_callbackExecuted (r : descriptor) : descriptor :=
  {| r_method := r_method r; r_path := r_path r; r_query := r_query r;
     r_body := r_body r; r_headers := r_headers r; r_handler := r_handler r;
     r_callback := r_callback r; r_retry := r_retry r;
     r_callbackExecuted := true |}.

(** The argument list of a callback invocation: [(null, res)] or [(err)]. *)
Inductive callback_args : Type :=
| CbResult (res : jsval)
| CbError (err : error).

(** What a run does, in order.  [EvSend], [EvWriteFile] and [EvCallback]
    are its effects on the outside; the others mark the entry of a stage. *)
Inductive event : Type :=
| EvAuthenticate
| EvExecute (path : string)
| EvSend (o : options)
| EvWriteFile (filepath data : string)
| EvRequeue (path : string)
| EvCallback (path : string) (args : callback_args).

(** The mutable world: the client's token, the files written, the trace. *)
Record state : Type := {
  token : jsval;
  files : list (string * string);
  log : list event
}.

(** [new Criteo_API_Client(...)]: [this.token = '']. *)
Definition initial_state : state :=
  {| token := JString ""; files := []; log := [] |}.

Definition emit (e : event) (st : state) : state :=
  {| token := token st; files := files st; log := (log st ++ [e])%list |}.

Definition set_token (t : jsval) (st : state) : state :=
  {| token := t; files := files st; log := log st |}.

Definition set_file (path data : string) (st : state) : state :=
  {| token := token st; files := obj_set (files st) path data; log := log st |}.

Definition is_send (e : event) : bool :=
  match e with EvSend _ => true | _ => false end.

(** The number of requests issued so far. *)
Definition requests (st : state) : nat := length (filter is_send (log st)).

Section Client.
Context {P : Platform}.
Variable c : client.
Variable env : environment.

(** *** [lib/http.js] *)

(** [http_request(r, mod)]: the promise resolves with the body and the
    response on ['end'], rejects with [Error(err)] on ['error'] and with
    the time-out error on ['timeout']. *)
Definition http_request (r : options) (st : state) : state * (response + error) :=
  let answer := net env (requests st) r in
  let st := emit (EvSend r) st in
  match answer with
  | NetEnd res => (st, inl res)
  | NetError err => (st, inr (Error err))
  | NetTimeout =>
      (st, inr (Error ("Request timed out after " ++ N_toString (timeout c) ++ " ms.")))
  end.

(** [_request(r)]: both branches run [http_request], over [https] or
    [http]; the module is the environment's business. *)
Definition _request (r : options) (st : state) : state * (response + error) :=
  if (o_protocol r =? "https:")%string then http_request r st else http_request r st.

(** *** [api_client.js] *)

(** The [req] argument of the verbs of [API_Client] as the client builds
    it: no [protocol], so the default ['https:'] applies. *)
Record api_req : Type := {
  a_path : string;
  a_body : option string;
  a_query : option (list (string * string));
  a_headers : list (string * string)
}.

Definition apiRequest (method : string) (req : api_req) (st : state)
  : state * (response + error) :=
  let path :=
    match a_query req with
    | Some query => a_path req ++ "?" ++ querystring_stringify query
    | None => a_path req
    end in
  _request {| o_method := method; o_protocol := "https:"; o_hostname := host c;
              o_path := path; o_timeout := timeout c;
              o_headers := a_headers req; o_body := a_body req |} st.

Definition apiGet := apiRequest "GET".
Definition apiPost := apiRequest "POST".
Definition apiPut := apiRequest "PUT".
Definition apiPatch := apiRequest "PATCH".
Definition apiDelete := apiRequest "DELETE".

(** *** [Criteo_API_Client]: sending *)

(** [request(method, req)]: default headers, with the bearer token,
    overridden by the headers of the request. *)
Definition request (method : api_req -> state -> state * (response + error))
           (req : api_req) (st : state) : state * (response + error) :=
  let headers :=
    [("Authorization", "Bearer " ++ ToString (token st));
     ("Accept", "application/json, text/xml");
     ("Content-Type", "application/*+json");
     ("User-Agent", "criteo-api-nodejs-client/v" ++ version c)] in
  method {| a_path := endpoint c ++ a_path req;
            a_body := a_body req;
            a_query := a_query req;
            a_headers := obj_spread headers (a_headers req) |} st.

(** [this[r.method]]: the methods [get], [post], [put], [patch], [delete]. *)
Definition send (m : verb) : api_req -> state -> state * (response + error) :=
  match m with
  | get => request apiGet
  | post => request apiPost
  | put => request apiPut
  | patch => request apiPatch
  | delete => request apiDelete
  end.

(** *** Response handlers *)

(** The status error of [process]. *)
Definition bad_response (res : response) : error :=
  Error ("Bad Response From API: Status Code " ++ N_toString (statusCode res)
         ++ " | " ++ body res).

(** The test of [process] on the status code. *)
Definition status_accepted (res : response) : bool :=
  match_20_digit (N_toString (statusCode res)).

(** A parser receives the trimmed body and the [resolve] and [reject] of
    the promise of [process]: here the promise cell it settles.

    [process] does not return after it rejects a bad status: the parser
    still runs, on a promise that is already settled.  The [catch]
    branch needs a synchronous throw, which a numeric status, a string
    body and these parsers never produce. *)
Definition process (res : response)
           (parser : string -> promise -> state -> state * promise)
           (st : state) : state * promise :=
  let cell := Pending in
  let cell :=
    if status_accepted res then cell
    else settle cell (Rejected (bad_response res)) in
  parser (trim (body res)) cell st.

Definition parseJSON (body : string) (cell : promise) (st : state) : state * promise :=
  if negb (body =? "")%string then
    match JSON_parse body with
    | inl value => (st, settle cell (Fulfilled value))
    | inr e => (st, settle cell (Rejected (Error ("Error Parsing JSON Response: " ++ e))))
    end
  else (st, settle cell (Fulfilled (JBool true))).

Definition parseResponse (body : string) (cell : promise) (st : state) : state * promise :=
  if negb (body =? "")%string then (st, settle cell (Fulfilled (JString body)))
  else (st, settle cell (Fulfilled (JBool true))).

(** [fs.writeFile(filepath, body, cb)]: the file holds [body] unless the
    write fails; the failure is reported to the callback. *)
Definition saveToFile (filepath body : string) (cell : promise) (st : state)
  : state * promise :=
  let err := writeFile_error env (requests st) filepath body in
  let st := emit (EvWriteFile filepath body) st in
  match err with
  | Some err =>
      (st, settle cell (Rejected (Error ("Error Saving Response to File. " ++ err))))
  | None =>
      (set_file filepath body st,
       settle cell (Fulfilled (JString ("Results saved to " ++ filepath ++ "."))))
  end.

Definition processJSON (res : response) := process res parseJSON.
Definition processFile (filepath : string) (res : response) :=
  process res (saveToFile filepath).
Definition processResponse (res : response) := process res parseResponse.

Definition auth_error : error :=
  Error "Error Retrieving Session Token from Authentication Response!".

(** [processAuth]: the status code is not read; whatever
    [response.access_token] evaluates to becomes the token. *)
Definition processAuth (res : response) (st : state) : state * promise :=
  match JSON_parse (body res) with
  | inl response =>
      match get_access_token response with
      | Some t => (set_token t st, Fulfilled t)
      | None => (st, Rejected auth_error)
      end
  | inr _ => (st, Rejected auth_error)
  end.

Definition run_handler (h : handler) : response -> state -> state * promise :=
  match h with
  | processAuth_bound => processAuth
  | processJSON_bound => processJSON
  | processFile_bound filepath => processFile filepath
  | processResponse_bound => processResponse
  end.

(** [determineReportHandler(filepath)]; an absent [filepath] is
    [None]. *)
Definition determineReportHandler (filepath : option string) : handler :=
  match filepath with
  | Some f => if negb (f =? "")%string then processFile_bound f else processResponse_bound
  | None => processResponse_bound
  end.

(** *** The pipeline *)

(** [checkAuthentication(r)]: [true] when the promise resolves, [false]
    when it rejects (without a reason). *)
Definition checkAuthentication (r : descriptor) (st : state) : bool :=
  (truthy (token st) && negb (r_retry r)) || (r_path r =? "/oauth2/token")%string.

Definition toFormData (obj : list (string * string)) : string :=
  slice_0_m1
    (fold_left (fun formdata kv => formdata ++ fst kv ++ "=" ++ snd kv ++ "&") obj "").

(** The descriptor [authenticate] builds. *)
Definition auth_descriptor (callback : bool) : descriptor :=
  let auth :=
    [("client_id", encodeURIComponent (id c));
     ("client_secret", encodeURIComponent (secret c));
     ("grant_type", "client_credentials")] in
  {| r_method := post;
     r_path := "/oauth2/token";
     r_query := None;
     r_body := Some (toFormData auth);
     r_headers := [("Content-Type", "application/x-www-form-urlencoded")];
     r_handler := processAuth_bound;
     r_callback := callback;
     r_retry := false;
     r_callbackExecuted := false |}.

(** The result of a submission: the descriptor and the world after it,
    and the state of the promise it returned. *)
Definition submission : Type := descriptor * state * promise.

(** [authenticate(callback)], over the pipeline [submit] it calls. *)
Definition authenticate (submit : descriptor -> state -> option submission)
           (callback : bool) (st : state) : option (state * promise) :=
  match submit (auth_descriptor callback) (emit EvAuthenticate st) with
  | Some (_, st, p) => Some (st, p)
  | None => None
  end.

(** [executeRequest(r)]: send, then hand the response to [r.handler]. *)
Definition executeRequest (r : descriptor) (st : state) : state * promise :=
  let st := emit (EvExecute (r_path r)) st in
  let '(st, answer) :=
    send (r_method r)
         {| a_path := r_path r; a_body := r_body r;
            a_query := r_query r; a_headers := r_headers r |} st in
  match answer with
  | inl res => run_handler (r_handler r) res st
  | inr err => (st, Rejected err)
  end.

(** [decideWhetherToRequeue(r, err)]: the promise adopts the one of the
    resubmission, or rejects with [err]. *)
Definition decideWhetherToRequeue (submit : descriptor -> state -> option submission)
           (r : descriptor) (err : error) (st : state) : option submission :=
  if (indexOf (Error_toString err) "401" >? -1)%Z && negb (r_retry r) then
    submit (set_retry r) (emit (EvRequeue (r_path r)) st)
  else Some (r, st, Rejected err).

(** [resolveRequest(r, resolve, res)] *)
Definition resolveRequest (r : descriptor) (res : jsval) (st : state) : submission :=
  if r_callback r && negb (r_callbackExecuted r) then
    (set_callbackExecuted r, emit (EvCallback (r_path r) (CbResult res)) st, Fulfilled res)
  else (r, st, Fulfilled res).

(** [rejectRequest(r, reject, err)]: [reject] is in the [else] branch. *)
Definition rejectRequest (r : descriptor) (err : error) (st : state) : submission :=
  if r_callback r && negb (r_callbackExecuted r) then
    (set_callbackExecuted r, emit (EvCallback (r_path r) (CbError err)) st, Pending)
  else (r, st, Rejected err).

(** The five links of the chain built by [criteoApiRequest(r)]. *)

(** [this.checkAuthentication(r).catch(this.authenticate.bind(this))]:
    [authenticate] receives the rejection reason, [undefined], as its
    callback. *)
Definition gate_catch_authenticate (submit : descriptor -> state -> option submission)
           (r : descriptor) (st : state) : option (state * promise) :=
  if checkAuthentication r st then Some (st, Fulfilled Undefined)
  else authenticate submit false st.

(** [.then(this.executeRequest.bind(this, r))] *)
Definition then_execute (r : descriptor) (st : state) (p : promise) : state * promise :=
  match p with
  | Fulfilled _ => executeRequest r st
  | _ => (st, p)
  end.

(** [.catch(this.decideWhetherToRequeue.bind(this, r))] *)
Definition catch_requeue (submit : descriptor -> state -> option submission)
           (r : descriptor) (st : state) (p : promise) : option submission :=
  match p with
  | Rejected err => decideWhetherToRequeue submit r err st
  | _ => Some (r, st, p)
  end.

(** [.then(this.resolveRequest.bind(this, r, resolve))
     .catch(this.rejectRequest.bind(this, r, reject))]: the state of the
    promise [criteoApiRequest] returned. *)
Definition then_settle (r : descriptor) (st : state) (p : promise) : submission :=
  match p with
  | Fulfilled res => resolveRequest r res st
  | Rejected err => rejectRequest r err st
  | Pending => (r, st, Pending)
  end.

(** The first three links: the attempt whose failure the fourth inspects. *)
Definition attempt (submit : descriptor -> state -> option submission)
           (r : descriptor) (st : state) : option (state * promise) :=
  match gate_catch_authenticate submit r st with
  | Some (st, p) => Some (then_execute r st p)
  | None => None
  end.

Definition chain (submit : descriptor -> state -> option submission)
           (r : descriptor) (st : state) : option submission :=
  match attempt submit r st with
  | Some (st, p) =>
      match catch_requeue submit r st p with
      | Some (r, st, p) => Some (then_settle r st p)
      | None => None
      end
  | None => None
  end.

(** [criteoApiRequest(r)].  The source recurses through [authenticate]
    and [decideWhetherToRequeue]; [fuel] bounds the depth of these
    calls, and [None] means it ran out. *)
Fixpoint criteoApiRequest (fuel : nat) (r : descriptor) (st : state)
  : option submission :=
  match fuel with
  | O => None
  | S fuel => chain (criteoApiRequest fuel) r st
  end.

End Client.

(** ** Endpoint methods *)

(** [String.prototype.toLowerCase] on one code unit below 256: the
    letters [A]..[Z] and the capital letters of Latin-1 (192..222 but the
    multiplication sign, 215) are moved by 32. *)
Definition toLowerCase_unit (x : ascii) : ascii :=
  let n := nat_of_ascii x in
  if ((65 <=? n) && (n <=? 90) || (192 <=? n) && (n <=? 222) && negb (n =? 215))%nat
  then ascii_of_nat (n + 32) else x.

Fixpoint toLowerCase (s : string) : string :=
  match s with
  | String x rest => String (toLowerCase_unit x) (toLowerCase rest)
  | EmptyString => EmptyString
  end.

(** [determineStatsHandler(query, filepath)].  [format] is
    [query.format], [None] when the query has none; the result [None]
    stands for the [TypeError] that [undefined.toLowerCase()] throws. *)
Definition determineStatsHandler (format : option string) (filepath : option string)
  : option handler :=
  let otherwise :=
    match format with
    | Some format =>
        Some (if (toLowerCase format =? "json")%string then processJSON_bound
              else processResponse_bound)
    | None => None
    end in
  match filepath with
  | Some f => if negb (f =? "")%string then Some (processFile_bound f) else otherwise
  | None => otherwise
  end.

Section Endpoints.
Context {P : Platform}.
Variable c : client.
Variable env : environment.

(** An endpoint method is [criteoApiRequest] on a descriptor literal:
    [m_r] is the literal of the method [m].  A literal has no [retry] and
    no [callbackExecuted]: both read as false. *)

(** [getAccounts(callback)] *)
Definition getAccounts_r (callback : bool) : descriptor :=
  {| r_method := get;
     r_path := "/preview/retail-media/accounts";
     r_query := None;
     r_body := None;
     r_headers := [];
     r_handler := processJSON_bound;
     r_callback := callback;
     r_retry := false;
     r_callbackExecuted := false |}.

Definition getAccounts (fuel : nat) (callback : bool) (st : state) : option submission :=
  criteoApiRequest c env fuel (getAccounts_r callback) st.



(** [startAdSets(adsets, callback)], on an array of strings:
    [adset.toString()] is [adset]. *)
Definition startAdSets_r (adsets : list string) (callback : bool) : descriptor :=
  let payload :=
    JObject [("data",
              JArray (map (fun adset =>
                             JObject [("type", JString "AdSetId"); ("id", JString adset)])
                          adsets))] in
  {| r_method := post;
     r_path := "/" ++ version c ++ "/marketing-solutions/ad-sets/start";
     r_query := None;
     r_body := Some (JSON_stringify payload);
     r_headers := [];
     r_handler := processJSON_bound;
     r_callback := callback;
     r_retry := false;
     r_callbackExecuted := false |}.

Definition startAdSets (fuel : nat) (adsets : list string) (callback : bool) (st : state)
  : option submission :=
  criteoApiRequest c env fuel (startAdSets_r adsets callback) st.

(** [stopAdSets(adsets, callback)] *)
Definition stopAdSets_r (adsets : list string) (callback : bool) : descriptor :=
  let payload :=
    JObject [("data",
              JArray (map (fun adset =>
                             JObject [("type", JString "AdSetId"); ("id", JString adset)])
                          adsets))] in
  {| r_method := post;
     r_path := "/" ++ version c ++ "/marketing-solutions/ad-sets/stop";
     r_query := None;
     r_body := Some (JSON_stringify payload);
     r_headers := [];
     r_handler := processJSON_bound;
     r_callback := callback;
     r_retry := false;
     r_callbackExecuted := false |}.

Definition stopAdSets (fuel : nat) (adsets : list string) (callback : bool) (st : state)
  : option submission :=
  criteoApiRequest c env fuel (stopAdSets_r adsets callback) st.

End Endpoints.

(** ** A runtime: JSON text, URI escaping *)

Module JSON.

(** JSON white space: space, tab, line feed, carriage return. *)
Definition is_ws (c : ascii) : bool :=
  match nat_of_ascii c with
  | 9 | 10 | 13 | 32 => true
  | _ => false
  end.

Fixpoint skip_ws (s : string) : string :=
  match s with
  | String c rest => if is_ws c then skip_ws rest else s
  | EmptyString => EmptyString
  end.

(** *** Numbers: [-? int frac? exp?] *)

(** The longest prefix of digits, and what follows it. *)
Fixpoint digits (s : string) : string * string :=
  match s with
  | String c rest =>
      if is_digit c then let '(ds, r) := digits rest in (String c ds, r)
      else (EmptyString, s)
  | EmptyString => (EmptyString, EmptyString)
  end.

Definition lex_int (s : string) : option (string * string) :=
  match s with
  | String c rest =>
      if (c =? "0")%char then Some ("0", rest)
      else if is_digit c then let '(ds, r) := digits rest in Some (String c ds, r)
      else None
  | EmptyString => None
  end.

Definition lex_frac (s : string) : option (string * string) :=
  match s with
  | String "." rest =>
      match digits rest with
      | (EmptyString, _) => None
      | (ds, r) => Some (String "." ds, r)
      end
  | _ => Some (EmptyString, s)
  end.

Definition is_e (c : ascii) : bool := (c =? "e")%char || (c =? "E")%char.

Definition lex_sign (s : string) : string * string :=
  match s with
  | String "+" r => ("+", r)
  | String "-" r => ("-", r)
  | _ => (EmptyString, s)
  end.

Definition lex_exp (s : string) : option (string * string) :=
  match s with
  | String c rest =>
      if is_e c then
        let '(sign, rest) := lex_sign rest in
        match digits rest with
        | (EmptyString, _) => None
        | (ds, r) => Some (String c (sign ++ ds), r)
        end
      else Some (EmptyString, s)
  | EmptyString => Some (EmptyString, EmptyString)
  end.

Definition lex_minus (s : string) : string * string :=
  match s with
  | String "-" r => ("-", r)
  | _ => (EmptyString, s)
  end.

Definition lex_number (s : string) : option (string * string) :=
  let '(sign, s) := lex_minus s in
  match lex_int s with
  | None => None
  | Some (i, s) =>
      match lex_frac s with
      | None => None
      | Some (f, s) =>
          match lex_exp s with
          | None => None
          | Some (e, s) => Some (sign ++ i ++ f ++ e, s)
          end
      end
  end.

(** *** The double a literal denotes, and the text of a double *)

Local Open Scope Z_scope.

(** The absolute value of a double: zero, [m * 2 ^ e] with [m] below
    [2 ^ 53] and [e] from [-1074] to [971], or infinity. *)
Inductive magnitude : Type :=
| Nought
| Finite (m e : Z)
| Unbounded.

(** A number [JSON.parse] can return: a double with its sign. *)
Record number : Type := { negative : bool; absolute : magnitude }.

Definition magnitude_eqb (x y : magnitude) : bool :=
  match x, y with
  | Nought, Nought => true
  | Finite m e, Finite m' e' => (m =? m') && (e =? e')
  | Unbounded, Unbounded => true
  | _, _ => false
  end.

Fixpoint digits_value (acc : Z) (ds : string) : Z :=
  match ds with
  | String x rest => digits_value (10 * acc + Z.of_nat (nat_of_ascii x - 48)%nat) rest
  | EmptyString => acc
  end.

(** The decimal [m * 10 ^ q] an unsigned literal stands for. *)
Definition decimal_of_unsigned (s : string) : Z * Z :=
  let '(i, s) := digits s in
  let '(f, s) := match s with
                 | String "." r => digits r
                 | _ => (EmptyString, s)
                 end in
  let q := match s with
           | String x r =>
               if is_e x then
                 let '(sg, r) := lex_sign r in
                 let '(ds, _) := digits r in
                 if (sg =? "-")%string then - digits_value 0 ds else digits_value 0 ds
               else 0
           | EmptyString => 0
           end in
  (digits_value 0 (i ++ f), q - Z.of_nat (String.length f)).

(** The sign of a literal and its decimal. *)
Definition decimal_of_literal (literal : string) : bool * Z * Z :=
  let '(sign, s) := lex_minus literal in
  let '(m, q) := decimal_of_unsigned s in
  (negb (sign =? "")%string, m, q).

(** The double nearest to [num / den], ties to the even significand:
    [e] is the exponent that puts the quotient in 53 bits, and not below
    that of the subnormal numbers. *)
Definition round_to_double (num den : Z) : magnitude :=
  let scaled e := if 0 <=? e then (num, den * 2 ^ e) else (num * 2 ^ (- e), den) in
  let e1 := Z.log2 num - Z.log2 den - 53 in
  let e2 := let '(a, b) := scaled e1 in if 2 ^ 53 <=? a / b then e1 + 1 else e1 in
  let e := Z.max e2 (-1074) in
  let '(a, b) := scaled e in
  let q := a / b in
  let r := a mod b in
  let q := if (b <? 2 * r) || ((2 * r =? b) && Z.odd q) then q + 1 else q in
  let '(q, e) := if q =? 2 ^ 53 then (2 ^ 52, e + 1) else (q, e) in
  if q =? 0 then Nought
  else if 971 <? e then Unbounded
  else Finite q e.

(** The double of [m * 10 ^ q].  A decimal above [10 ^ 310] is infinite
    and one below [10 ^ -330] is zero, whatever its digits: [lo] and
    [hi] bound [100000 * log10] of the decimal. *)
Definition magnitude_of_decimal (m q : Z) : magnitude :=
  if m =? 0 then Nought
  else
    let lo := 100000 * q + 30102 * Z.log2 m in
    let hi := 100000 * q + 30103 * (Z.log2 m + 1) in
    if 31000000 <? lo then Unbounded
    else if hi <? -33000000 then Nought
    else if 0 <=? q then round_to_double (m * 10 ^ q) 1
    else round_to_double m (10 ^ (- q)).

(** The number a literal is read as. *)
Definition read_literal (literal : string) : number :=
  let '(sign, m, q) := decimal_of_literal literal in
  {| negative := sign; absolute := magnitude_of_decimal m q |}.

(** A text that is one number literal and nothing else. *)
Definition whole (text : string) : bool :=
  match lex_number text with
  | Some (literal, EmptyString) => (literal =? text)%string
  | _ => false
  end.

(** An unsigned literal that is read as the double [x]. *)
Definition reads_as (x : magnitude) (text : string) : bool :=
  whole text &&
  let '(sign, m, q) := decimal_of_literal text in
  negb sign && magnitude_eqb (magnitude_of_decimal m q) x.

Definition Z_digits (s : Z) : string := N_toString (Z.to_N s).

Fixpoint zeros (n : nat) : string :=
  match n with
  | O => EmptyString
  | S n => String "0" (zeros n)
  end.

(** [Number::toString] of [s * 10 ^ (n - k)], where [s] has [k] digits:
    the digits followed by zeros, the digits around a point, the digits
    after [0.] and zeros, or one digit, a point, the other digits and an
    exponent. *)
Definition format (s n k : Z) : string :=
  let ds := Z_digits s in
  if (k <=? n) && (n <=? 21) then ds ++ zeros (Z.to_nat (n - k))
  else if (0 <? n) && (n <=? 21) then
    substring 0 (Z.to_nat n) ds ++ "." ++ substring (Z.to_nat n) (Z.to_nat (k - n)) ds
  else if (-6 <? n) && (n <=? 0) then "0." ++ zeros (Z.to_nat (- n)) ++ ds
  else
    let e := n - 1 in
    let exponent := (if e <? 0 then "e-" else "e+") ++ Z_digits (Z.abs e) in
    if k =? 1 then ds ++ exponent
    else substring 0 1 ds ++ "." ++ substring 1 (Z.to_nat (k - 1)) ds ++ exponent.

(** Whether [10 ^ d <= num / den]. *)
Definition reaches (num den d : Z) : bool :=
  if 0 <=? d then den * 10 ^ d <=? num else den <=? num * 10 ^ (- d).

Fixpoint up (fuel : nat) (num den d : Z) : Z :=
  match fuel with
  | O => d
  | S fuel => if reaches num den d then up fuel num den (d + 1) else d
  end.

Fixpoint down (fuel : nat) (num den d : Z) : Z :=
  match fuel with
  | O => d
  | S fuel => if reaches num den (d - 1) then d else down fuel num den (d - 1)
  end.

(** The [d] with [10 ^ (d - 1) <= num / den < 10 ^ d], found from the
    binary logarithms. *)
Definition order (num den : Z) : Z :=
  up 4 num den (down 4 num den ((Z.log2 num - Z.log2 den) * 30103 / 100000)).

(** The text of [k] digits that is read as [x], if there is one: the
    candidates are the two [k]-digit decimals around [num / den], and of
    two that are read as [x] the nearer is taken (the even one when they
    are as near). *)
Definition digits_at (x : magnitude) (num den d k : Z) : option string :=
  let p := d - k in
  let '(a, b) := if 0 <=? p then (num, den * 10 ^ p) else (num * 10 ^ (- p), den) in
  let lo := a / b in
  let hi := lo + 1 in
  let text_lo := format lo d k in
  let text_hi := if hi =? 10 ^ k then format (10 ^ (k - 1)) (d + 1) k else format hi d k in
  let lo_first := (2 * a <? (lo + hi) * b) || ((2 * a =? (lo + hi) * b) && Z.even lo) in
  match reads_as x text_lo, reads_as x text_hi with
  | true, true => Some (if lo_first then text_lo else text_hi)
  | true, false => Some text_lo
  | false, true => Some text_hi
  | false, false => None
  end.

(** The text with the fewest digits, from [k] digits on. *)
Fixpoint shortest (fuel : nat) (x : magnitude) (num den d k : Z) : option string :=
  match fuel with
  | O => None
  | S fuel =>
      match digits_at x num den d k with
      | Some text => Some text
      | None => shortest fuel x num den d (k + 1)
      end
  end.

(** [Number::toString] of the double [m * 2 ^ e]: as few digits as are
    read as that double again.  Seventeen digits always are; [NaN]
    stands for the search that ends without a text. *)
Definition Number_toString_finite (m e : Z) : string :=
  let '(num, den) := if 0 <=? e then (m * 2 ^ e, 1) else (m, 2 ^ (- e)) in
  match shortest 17 (Finite m e) num den (order num den) 1 with
  | Some text => text
  | None => "NaN"
  end.

(** The name of a number: what [Number::toString] gives, but [-0] for
    the negative zero, which is a value of its own. *)
Definition name_of (x : number) : string :=
  match absolute x with
  | Nought => if negative x then "-0" else "0"
  | Finite m e => (if negative x then "-" else "") ++ Number_toString_finite m e
  | Unbounded => if negative x then "-Infinity" else "Infinity"
  end.

(** The name of the number a literal is read as: [1.50] is [1.5], [1e21]
    is [1e+21], [1e999] is [Infinity], [1e-400] is [0]. *)
Definition Number_name (literal : string) : string := name_of (read_literal literal).

Local Close Scope Z_scope.

(** [ToString] and [ToBoolean] of a number: the negative zero is written
    [0], and the zeros are the numbers that are not truthy. *)
Definition number_ToString (name : string) : string :=
  if name =? "-0" then "0" else name.

Definition number_ToBoolean (name : string) : bool :=
  negb ((name =? "0") || (name =? "-0")).

(** [JSON.stringify] of a number: [null] for an infinite one. *)
Definition number_text (name : string) : string :=
  if (name =? "Infinity") || (name =? "-Infinity") then "null"
  else number_ToString name.

(** *** Strings *)

Definition hex_value (c : ascii) : option nat :=
  let n := nat_of_ascii c in
  if (48 <=? n)%nat && (n <=? 57)%nat then Some (n - 48)
  else if (65 <=? n)%nat && (n <=? 70)%nat then Some (n - 55)
  else if (97 <=? n)%nat && (n <=? 102)%nat then Some (n - 87)
  else None.

(** The code unit of [\uXXXX].  A [string] holds code units below 256
    only: an escape for a higher one, which the runtime accepts, has no
    value here and the text holding it is not parsed. *)
Definition unicode_escape (h1 h2 h3 h4 : ascii) : option ascii :=
  match hex_value h1, hex_value h2, hex_value h3, hex_value h4 with
  | Some 0, Some 0, Some a, Some b => Some (ascii_of_nat (16 * a + b))
  | _, _, _, _ => None
  end.

(** The double quote and the backslash. *)
Definition dquote : ascii := "034"%char.
Definition backslash : ascii := "092"%char.

(** The character an escape [\c] stands for. *)
Definition simple_escape (c : ascii) : option ascii :=
  if (c =? dquote)%char then Some dquote
  else if (c =? backslash)%char then Some backslash
  else if (c =? "/")%char then Some "/"%char
  else if (c =? "b")%char then Some "008"%char
  else if (c =? "f")%char then Some "012"%char
  else if (c =? "n")%char then Some "010"%char
  else if (c =? "r")%char then Some "013"%char
  else if (c =? "t")%char then Some "009"%char
  else None.

(** The characters of a string literal after its opening quote, up to
    and including the closing one. *)
Fixpoint lex_string (s : string) : option (string * string) :=
  match s with
  | EmptyString => None
  | String c rest =>
      if (c =? dquote)%char then Some (EmptyString, rest)
      else if (c =? backslash)%char then
        match rest with
        | String "u" (String h1 (String h2 (String h3 (String h4 rest')))) =>
            match unicode_escape h1 h2 h3 h4, lex_string rest' with
            | Some d, Some (t, r) => Some (String d t, r)
            | _, _ => None
            end
        | String e rest' =>
            match simple_escape e, lex_string rest' with
            | Some d, Some (t, r) => Some (String d t, r)
            | _, _ => None
            end
        | EmptyString => None
        end
      else if (nat_of_ascii c <? 32)%nat then None
      else
        match lex_string rest with
        | Some (t, r) => Some (String c t, r)
        | None => None
        end
  end.

(** *** Objects: property order *)

Fixpoint all_digits (s : string) : bool :=
  match s with
  | String c rest => is_digit c && all_digits rest
  | EmptyString => true
  end.

(** An array index: the canonical decimal text of an integer below
    2^32 - 1. *)
Definition array_index (k : string) : option N :=
  match k with
  | EmptyString => None
  | String c rest =>
      if all_digits k && (negb (c =? "0")%char || (rest =? "")%string) then
        match NilEmpty.uint_of_string k with
        | Some u => if (N.of_uint u <? 4294967295)%N then Some (N.of_uint u) else None
        | None => None
        end
      else None
  end.

Fixpoint has_key {A} (o : list (string * A)) (k : string) : bool :=
  match o with
  | [] => false
  | (k', _) :: rest => (k' =? k)%string || has_key rest k
  end.

(** Whether the key [k'] is enumerated after a new key [k]: array
    indices come first, in ascending order; other keys keep the order
    in which they were created. *)
Definition follows (k k' : string) : bool :=
  match array_index k, array_index k' with
  | Some n, Some n' => (n <? n')%N
  | Some _, None => true
  | None, _ => false
  end.

Fixpoint insert (o : list (string * json)) (k : string) (v : json)
  : list (string * json) :=
  match o with
  | [] => [(k, v)]
  | (k', v') :: rest =>
      if follows k k' then (k, v) :: o else (k', v') :: insert rest k v
  end.

(** [CreateDataProperty(o, k, v)]: an existing property keeps its place. *)
Definition define (o : list (string * json)) (k : string) (v : json)
  : list (string * json) :=
  if has_key o k then obj_set o k v else insert o k v.

Definition object_of (members : list (string * json)) : json :=
  JObject (fold_left (fun o kv => define o (fst kv) (snd kv)) members []).

(** *** Values *)

(** [strip p s]: what follows the prefix [p] of [s]. *)
Fixpoint strip (p s : string) : option string :=
  match p with
  | EmptyString => Some s
  | String a p' =>
      match s with
      | String b s' => if (a =? b)%char then strip p' s' else None
      | EmptyString => None
      end
  end.

(** [parse_value] reads a value at the head of [s]; [parse_elements]
    reads [value (, value)* ]] and [parse_members] reads
    [string : value (, string : value)* }], white space allowed between
    tokens.  Each returns what follows. *)
Fixpoint parse_value (fuel : nat) (s : string) : option (json * string) :=
  match fuel with
  | O => None
  | S fuel =>
      match strip "{" s with
      | Some rest =>
          match strip "}" (skip_ws rest) with
          | Some rest => Some (JObject [], rest)
          | None =>
              match parse_members fuel (skip_ws rest) with
              | Some (members, rest) => Some (object_of members, rest)
              | None => None
              end
          end
      | None =>
      match strip "[" s with
      | Some rest =>
          match strip "]" (skip_ws rest) with
          | Some rest => Some (JArray [], rest)
          | None =>
              match parse_elements fuel (skip_ws rest) with
              | Some (elements, rest) => Some (JArray elements, rest)
              | None => None
              end
          end
      | None =>
      match strip (String dquote "") s with
      | Some rest =>
          match lex_string rest with
          | Some (t, rest) => Some (JString t, rest)
          | None => None
          end
      | None =>
      match strip "true" s with
      | Some rest => Some (JBool true, rest)
      | None =>
      match strip "false" s with
      | Some rest => Some (JBool false, rest)
      | None =>
      match strip "null" s with
      | Some rest => Some (JNull, rest)
      | None =>
          match lex_number s with
          | Some (literal, rest) => Some (JNumber (Number_name literal), rest)
          | None => None
          end
      end end end end end end
  end
with parse_elements (fuel : nat) (s : string) : option (list json * string) :=
  match fuel with
  | O => None
  | S fuel =>
      match parse_value fuel s with
      | Some (v, rest) =>
          match strip "," (skip_ws rest) with
          | Some rest =>
              match parse_elements fuel (skip_ws rest) with
              | Some (vs, rest) => Some (v :: vs, rest)
              | None => None
              end
          | None =>
              match strip "]" (skip_ws rest) with
              | Some rest => Some ([v], rest)
              | None => None
              end
          end
      | None => None
      end
  end
with parse_members (fuel : nat) (s : string)
  : option (list (string * json) * string) :=
  match fuel with
  | O => None
  | S fuel =>
      match strip (String dquote "") s with
      | Some rest =>
          match lex_string rest with
          | Some (k, rest) =>
              match strip ":" (skip_ws rest) with
              | Some rest =>
                  match parse_value fuel (skip_ws rest) with
                  | Some (v, rest) =>
                      match strip "," (skip_ws rest) with
                      | Some rest =>
                          match parse_members fuel (skip_ws rest) with
                          | Some (ms, rest) => Some ((k, v) :: ms, rest)
                          | None => None
                          end
                      | None =>
                          match strip "}" (skip_ws rest) with
                          | Some rest => Some ([(k, v)], rest)
                          | None => None
                          end
                      end
                  | None => None
                  end
              | None => None
              end
          | None => None
          end
      | None => None
      end
  end.

(** [JSON.parse(text)].  The fuel exceeds the nesting of any text of
    that length.  The rendering of the [SyntaxError] tells which of the
    two it is; the runtime's message also quotes the text. *)
Definition parse (text : string) : json + string :=
  match parse_value (2 * String.length text + 2) (skip_ws text) with
  | Some (v, rest) =>
      if (skip_ws rest =? "")%string then inl v
      else inr "SyntaxError: Unexpected non-whitespace character after JSON"
  | None => inr "SyntaxError: Unexpected token in JSON"
  end.

(** *** [JSON.stringify] *)

Definition hex_digit (n : nat) : ascii :=
  ascii_of_nat (if (n <? 10)%nat then 48 + n else 87 + n).

(** [QuoteJSONString] on one code unit. *)
Definition quote_char (c : ascii) : string :=
  let n := nat_of_ascii c in
  if (c =? dquote)%char then String backslash (String dquote "")
  else if (c =? backslash)%char then String backslash (String backslash "")
  else if (n =? 8)%nat then String backslash "b"
  else if (n =? 9)%nat then String backslash "t"
  else if (n =? 10)%nat then String backslash "n"
  else if (n =? 12)%nat then String backslash "f"
  else if (n =? 13)%nat then String backslash "r"
  else if (n <? 32)%nat then
    String backslash
      (String "u" (String "0" (String "0"
         (String (hex_digit (n / 16)) (String (hex_digit (n mod 16)) "")))))
  else String c "".

Fixpoint quote_body (s : string) : string :=
  match s with
  | String c rest => quote_char c ++ quote_body rest
  | EmptyString => EmptyString
  end.

Definition quote (s : string) : string :=
  String dquote (quote_body s ++ String dquote "").

Fixpoint stringify (j : json) : string :=
  match j with
  | JNull => "null"
  | JBool true => "true"
  | JBool false => "false"
  | JNumber name => number_text name
  | JString s => quote s
  | JArray l =>
      "[" ++
      (fix elements (l : list json) : string :=
         match l with
         | [] => ""
         | [v] => stringify v
         | v :: rest => stringify v ++ "," ++ elements rest
         end) l ++ "]"
  | JObject o =>
      "{" ++
      (fix members (o : list (string * json)) : string :=
         match o with
         | [] => ""
         | [(k, v)] => quote k ++ ":" ++ stringify v
         | (k, v) :: rest => quote k ++ ":" ++ stringify v ++ "," ++ members rest
         end) o ++ "}"
  end.

(** *** The values and texts the properties speak of *)

(** The head of [s]: a character that satisfies [p], if there is one. *)
Definition head (p : ascii -> bool) (s : string) : bool :=
  match s with
  | String x _ => p x
  | EmptyString => false
  end.

(** [s] is empty or begins with a character that [p] rejects. *)
Definition stops (p : ascii -> bool) (s : string) : bool := negb (head p s).

Definition is_dot (x : ascii) : bool := (x =? ".")%char.
Definition is_minus (x : ascii) : bool := (x =? "-")%char.

(** What may follow a printed value: nothing, a comma or a closing
    bracket. *)
Definition closes (rest : string) : bool :=
  match rest with
  | String x _ => (x =? ",")%char || (x =? "]")%char || (x =? "}")%char
  | EmptyString => true
  end.

Definition starts_number (x : ascii) : bool := is_minus x || is_digit x.


Definition keys (o : list (string * json)) : list string := map fst o.

(** The keys of an object in enumeration order: they are distinct, and no
    key stands before one that [follows] puts in front of it. *)
Fixpoint ordered (ks : list string) : Prop :=
  match ks with
  | [] => True
  | k :: rest =>
      (forall k', In k' rest -> k <> k' /\ follows k' k = false) /\ ordered rest
  end.

Definition define_member (o : list (string * json)) (kv : string * json) :=
  define o (fst kv) (snd kv).

(** A number that [stringify] writes by its name, and whose name is a
    literal: one that is finite and is not the negative zero. *)
Definition reads_back (name : string) : bool := whole name && negb (name =? "-0").

Fixpoint numbers_read_back (j : json) : bool :=
  match j with
  | JNumber name => reads_back name
  | JArray l => forallb numbers_read_back l
  | JObject o => forallb (fun kv => numbers_read_back (snd kv)) o
  | _ => true
  end.

(** The name of a number that some literal is read as. *)
Definition canonical (name : string) : Prop :=
  exists literal, name = Number_name literal.

(** The values [parse] returns: a number is one a literal is read as,
    the members of an object are in enumeration order. *)
Fixpoint parsed (j : json) : Prop :=
  match j with
  | JNumber name => canonical name
  | JArray l =>
      (fix all (l : list json) : Prop :=
         match l with
         | [] => True
         | v :: l => parsed v /\ all l
         end) l
  | JObject o =>
      ordered (keys o) /\
      (fix all (o : list (string * json)) : Prop :=
         match o with
         | [] => True
         | kv :: o => parsed (snd kv) /\ all o
         end) o
  | _ => True
  end.

(** The values that are read back from their text: those of the shape
    [parse] gives, whose numbers are written as literals that are read
    as the same numbers. *)
Fixpoint well_formed (j : json) : Prop :=
  match j with
  | JNumber name => reads_back name = true /\ Number_name name = name
  | JArray l =>
      (fix all (l : list json) : Prop :=
         match l with
         | [] => True
         | v :: l => well_formed v /\ all l
         end) l
  | JObject o =>
      ordered (keys o) /\
      (fix all (o : list (string * json)) : Prop :=
         match o with
         | [] => True
         | kv :: o => well_formed (snd kv) /\ all o
         end) o
  | _ => True
  end.

Definition member_well_formed (kv : string * json) : Prop := well_formed (snd kv).

Definition member_parsed (kv : string * json) : Prop := parsed (snd kv).

(** The text of the elements of an array and of the members of an
    object, as [stringify] lays them out. *)
Fixpoint elements_text (l : list json) : string :=
  match l with
  | [] => EmptyString
  | [v] => stringify v
  | v :: rest => (stringify v ++ String "," (elements_text rest))%string
  end.

Fixpoint members_text (o : list (string * json)) : string :=
  match o with
  | [] => EmptyString
  | [(k, v)] => (quote k ++ String ":" (stringify v))%string
  | (k, v) :: rest =>
      (quote k ++ String ":" (stringify v ++ String "," (members_text rest)))%string
  end.

(** The fuel a value asks of the parser. *)
Fixpoint size (j : json) : nat :=
  match j with
  | JArray l =>
      S ((fix sizes (l : list json) : nat :=
            match l with
            | [] => 0
            | v :: l => S (size v) + sizes l
            end) l)
  | JObject o =>
      S ((fix sizes (o : list (string * json)) : nat :=
            match o with
            | [] => 0
            | kv :: o => S (size (snd kv)) + sizes o
            end) o)
  | _ => 1
  end.

Definition sizes (l : list json) : nat :=
  fold_right (fun v n => S (size v) + n) 0 l.
Definition member_sizes (o : list (string * json)) : nat :=
  fold_right (fun kv n => S (size (snd kv)) + n) 0 o.

(** The first character of the text of a value. *)
Definition value_head (x : ascii) : bool :=
  (x =? "{")%char || (x =? "[")%char || (x =? dquote)%char || (x =? "t")%char
  || (x =? "f")%char || (x =? "n")%char || starts_number x.

End JSON.

Module URI.

Definition hex_upper (n : nat) : ascii :=
  ascii_of_nat (if (n <? 10)%nat then 48 + n else 55 + n).

Definition percent (n : nat) : string :=
  String "%" (String (hex_upper (n / 16)) (String (hex_upper (n mod 16)) "")).

(** Letters, digits and [- _ . ! ~ * ' ( )] are not escaped. *)
Definition unreserved (c : ascii) : bool :=
  let n := nat_of_ascii c in
  ((65 <=? n) && (n <=? 90) || (97 <=? n) && (n <=? 122) || (48 <=? n) && (n <=? 57))%nat
  || match n with
     | 45 | 95 | 46 | 33 | 126 | 42 | 39 | 40 | 41 => true
     | _ => false
     end.

(** The UTF-8 bytes of one code unit below 256, percent-encoded. *)
Definition escape_char (c : ascii) : string :=
  let n := nat_of_ascii c in
  if unreserved c then String c ""
  else if (n <? 128)%nat then percent n
  else percent (192 + n / 64) ++ percent (128 + n mod 64).

Fixpoint encodeURIComponent (s : string) : string :=
  match s with
  | String c rest => escape_char c ++ encodeURIComponent rest
  | EmptyString => EmptyString
  end.

(** [querystring.stringify] on string values. *)
Fixpoint querystring_stringify (q : list (string * string)) : string :=
  match q with
  | [] => ""
  | [(k, v)] => encodeURIComponent k ++ "=" ++ encodeURIComponent v
  | (k, v) :: rest =>
      encodeURIComponent k ++ "=" ++ encodeURIComponent v ++ "&"
      ++ querystring_stringify rest
  end.

End URI.

(** The runtime used for the concrete runs below. *)
#[export] Instance node : Platform := {|
  JSON_parse := JSON.parse;
  JSON_stringify := JSON.stringify;
  Number_truthy := JSON.number_ToBoolean;
  Number_toString := JSON.number_ToString;
  encodeURIComponent := URI.encodeURIComponent;
  querystring_stringify := URI.querystring_stringify
|}.

(** ** Observing a run *)

Local Open Scope list_scope.

Definition count (f : event -> bool) (l : list event) : nat := length (filter f l).

Definition is_authenticate (e : event) : bool :=
  match e with EvAuthenticate => true | _ => false end.
Definition is_execute (path : string) (e : event) : bool :=
  match e with EvExecute q => (q =? path)%string | _ => false end.
Definition is_requeue (path : string) (e : event) : bool :=
  match e with EvRequeue q => (q =? path)%string | _ => false end.

(** How often [authenticate] was entered, [executeRequest] was entered
    for a path, and a descriptor of a path was marked for a retry. *)
Definition authentications := count is_authenticate.
Definition executions (path : string) := count (is_execute path).
Definition requeues (path : string) := count (is_requeue path).

(** The callback invocations, in order. *)
Definition callbacks (l : list event) : list callback_args :=
  flat_map (fun e => match e with EvCallback _ args => [args] | _ => [] end) l.

(** How deep a submission of [r] can nest: a retry, and under a path
    other than the token endpoint an authentication with its own retry. *)
Definition depth (r : descriptor) : nat :=
  (if (r_path r =? "/oauth2/token")%string then 0 else 2)
  + (if r_retry r then 0 else 1).

(** The events a handler adds: none, or the write of [saveToFile]. *)
Definition io_tail (tail : list event) : Prop :=
  tail = [] \/ exists filepath data, tail = [EvWriteFile filepath data].

(** From [st] to [st'] no [authenticate] was entered, and nothing was
    executed or marked for a retry under a path other than the token
    endpoint. *)
Definition endpoint_only (st st' : state) : Prop :=
  authentications (log st') = authentications (log st) /\
  forall q, q <> "/oauth2/token" ->
            executions q (log st') = executions q (log st) /\
            requeues q (log st') = requeues q (log st).

(** What holds of a submission of [r] from [st] that ends in [res]:
    - the call keeps the descriptor's path and callback, and never clears
      the retry flag;
    - a callback that has not fired yet fires exactly once, with the value
      the promise is fulfilled with or with the error, and in the latter
      case the promise stays pending; without such a callback none fires
      and the promise is settled;
    - the retry flag of the descriptor is raised at most once;
    - a submission to the token endpoint does not enter [authenticate]
      and touches no other path. *)
Definition run_ok (r : descriptor) (st : state) (res : submission) : Prop :=
  let '(r', st', p) := res in
  r_callback r' = r_callback r /\
  r_path r' = r_path r /\
  (r_retry r = true -> r_retry r' = true) /\
  (if r_callback r && negb (r_callbackExecuted r)
   then r_callbackExecuted r' = true /\
        ((exists v, p = Fulfilled v /\
                    callbacks (log st') = callbacks (log st) ++ [CbResult v]) \/
         (exists e, p = Pending /\
                    callbacks (log st') = callbacks (log st) ++ [CbError e]))
   else r_callbackExecuted r' = r_callbackExecuted r /\
        callbacks (log st') = callbacks (log st) /\ p <> Pending) /\
  requeues (r_path r) (log st')
  = requeues (r_path r) (log st) + (if r_retry r' && negb (r_retry r) then 1 else 0) /\
  (r_path r = "/oauth2/token" -> endpoint_only st st').


(** A submission to the token endpoint that does not end fulfilled leaves
    the token as it was. *)
Definition failure_keeps_token (r : descriptor) (st : state) (res : submission) : Prop :=
  r_path r = "/oauth2/token" ->
  (forall v, snd res <> Fulfilled v) ->
  token (snd (fst res)) = token st.

(** How often a character occurs in a string. *)
Fixpoint occurrences (x : ascii) (s : string) : nat :=
  match s with
  | String y rest => (if (y =? x)%char then 1 else 0) + occurrences x rest
  | EmptyString => 0
  end.


(** The trace of a submission extends the one it started from, and when
    [processAuth] is the handler of the token endpoint alone, the token
    is as before unless a request to the token endpoint was executed. *)
Definition token_kept (r : descriptor) (st : state) (res : submission) : Prop :=
  let st' := snd (fst res) in
  (exists tail, log st' = log st ++ tail) /\
  ((r_handler r = processAuth_bound -> r_path r = "/oauth2/token"%string) ->
   executions "/oauth2/token" (log st') = executions "/oauth2/token" (log st) ->
   token st' = token st).


(** ** Concrete runs *)

Module Scenario.

(** A client made with the default arguments. *)
Definition api : client := new_client "key" "secret".

(** The descriptor of a [GET] on the accounts of the retail API, as an
    endpoint method builds it. *)
Definition accounts (callback : bool) : descriptor :=
  {| r_method := get;
     r_path := "/preview/retail-media/accounts";
     r_query := None;
     r_body := None;
     r_headers := [];
     r_handler := processJSON_bound;
     r_callback := callback;
     r_retry := false;
     r_callbackExecuted := false |}.

(** A network that gives the listed answers in order, and a disk that
    accepts every write. *)
Definition answers (l : list net_event) : environment :=
  {| net := fun n _ => nth n l NetTimeout;
     writeFile_error := fun _ _ _ => None |}.

Definition status (code : N) (text : string) : net_event :=
  NetEnd {| statusCode := code; body := text |}.

(** The body of a successful token exchange, of an error report of the
    token endpoint, and of an empty listing. *)
Definition token_body (t : string) : string :=
  JSON.stringify (JObject [("access_token", JString t)]).
Definition error_body : string :=
  JSON.stringify (JObject [("error", JString "invalid_client")]).
Definition listing : json := JObject [("data", JArray [])].

(** A client that holds the token [t]. *)
Definition stored (t : string) : state := set_token (JString t) initial_state.

(** The promise a run ends with, its trace and its descriptor. *)
Definition outcome (run : option submission) : option promise :=
  option_map snd run.
Definition trace (run : option submission) : list event :=
  match run with
  | Some (_, st, _) => log st
  | None => []
  end.
Definition retried (run : option submission) : option bool :=
  option_map (fun res => r_retry (fst (fst res))) run.

Definition path : string := "/preview/retail-media/accounts".

(** A stale token: the call gets a 401, the token exchange then fails. *)
Definition expired_then_unreachable : environment :=
  answers [status 401 "expired"; NetError "Error: socket hang up"].
Definition run_expired_then_unreachable : option submission :=
  criteoApiRequest api expired_then_unreachable 4 (accounts false) (stored "T0").
Definition after_401 : state :=
  match attempt api expired_then_unreachable
                (criteoApiRequest api expired_then_unreachable 3)
                (accounts false) (stored "T0") with
  | Some (st1, _) => st1
  | None => initial_state
  end.

(** The client authenticates while it holds a token; the token endpoint
    answers 500 with an error report. *)
Definition authenticate_500 : option (state * promise) :=
  authenticate api (criteoApiRequest api (answers [status 500 error_body]) 2)
               false (stored "T0").

(** A call with a callback that gets a 500. *)
Definition run_500_with_callback : option submission :=
  criteoApiRequest api (answers [status 500 "oops"]) 4 (accounts true) (stored "T0").

(** A 500 whose body mentions the digits 401, then a token, then the
    listing. *)
Definition run_500_mentioning_401 : option submission :=
  criteoApiRequest api
    (answers [status 500 "order 401 failed";
              status 200 (token_body "T1");
              status 200 (JSON.stringify listing)])
    4 (accounts false) (stored "T0").

(** No token yet, and a token endpoint that cannot be reached at an
    address that contains the digits 401; it answers at the third try. *)
Definition refused : net_event := NetError "Error: connect ECONNREFUSED 2001:db8::401:443".
Definition refused_twice : environment :=
  answers [refused; refused; status 200 (token_body "T1");
           status 200 (JSON.stringify listing)].
Definition run_refused_twice : option submission :=
  criteoApiRequest api refused_twice 4 (accounts false) initial_state.

End Scenario.

(** * Properties *)

(** ** Strings and maps *)

Lemma obj_get_set {A} (o : list (string * A)) (k : string) (v : A) :
  obj_get (obj_set o k v) k = Some v.
Proof.
  induction o as [|[k' v'] o IH]; simpl.
  - now rewrite String.eqb_refl.
  - destruct (k' =? k)%string eqn:E; simpl.
    + now rewrite String.eqb_refl.
    + now rewrite E.
Qed.

Lemma status_text_below_1000 (n : nat) :
  n < 1000 ->
  match_20_digit (N_toString (N.of_nat n)) = (200 <=? n)%nat && (n <=? 209)%nat.
Proof.
  intros Hn.
  assert (H : forallb (fun n => Bool.eqb (match_20_digit (N_toString (N.of_nat n)))
                                  ((200 <=? n)%nat && (n <=? 209)%nat))
                      (seq 0 1000) = true) by (vm_compute; reflexivity).
  rewrite forallb_forall in H.
  specialize (H n). rewrite in_seq in H.
  apply Bool.eqb_prop, H. lia.
Qed.

Lemma match_20_digit_range (s : N) :
  (s < 1000)%N ->
  match_20_digit (N_toString s) = true <-> (200 <= s <= 209)%N.
Proof.
  intros Hs.
  rewrite <- (N2Nat.id s), status_text_below_1000 by lia.
  rewrite andb_true_iff, !Nat.leb_le. lia.
Qed.

(** ** The JSON runtime: a printed value is read back *)

Module JSONFacts.
Import JSON.

Lemma append_assoc (a b d : string) : ((a ++ b) ++ d = a ++ (b ++ d))%string.
Proof. induction a as [|x a IH]; simpl; [reflexivity | now rewrite IH]. Qed.

Lemma append_nil_r (s : string) : (s ++ "")%string = s.
Proof. induction s as [|x s IH]; simpl; [reflexivity | now rewrite IH]. Qed.

(** *** Numbers *)

Lemma closes_stops (t : string) :
  closes t = true ->
  stops is_digit t = true /\ stops is_dot t = true /\ stops is_e t = true.
Proof.
  destruct t as [|x t]; [now cbv|]. unfold closes, stops, head.
  rewrite !orb_true_iff, !Ascii.eqb_eq. intros [[->| ->]| ->]; now cbv.
Qed.

Lemma digits_again (s ds r : string) :
  digits s = (ds, r) ->
  forall t, stops is_digit t = true -> digits (ds ++ t)%string = (ds, t).
Proof.
  revert ds r. induction s as [|x s IH]; simpl; intros ds r H t Ht.
  - injection H as <- <-. destruct t as [|y t]; [reflexivity|].
    simpl. unfold stops, head in Ht. apply negb_true_iff in Ht. now rewrite Ht.
  - destruct (is_digit x) eqn:D.
    + destruct (digits s) as [ds' r'] eqn:E. injection H as <- <-.
      simpl. rewrite D. now rewrite (IH _ _ eq_refl t Ht).
    + injection H as <- <-. destruct t as [|y t]; [reflexivity|].
      simpl. unfold stops, head in Ht. apply negb_true_iff in Ht. now rewrite Ht.
Qed.

Lemma digits_head (s ds r : string) :
  digits s = (ds, r) -> ds = EmptyString \/ head is_digit ds = true.
Proof.
  destruct s as [|x s]; simpl.
  - intros [= <- <-]. now left.
  - destruct (is_digit x) eqn:D.
    + destruct (digits s) as [ds' r']. intros [= <- <-]. now right.
    + intros [= <- <-]. now left.
Qed.

Lemma lex_int_again (s i r : string) :
  lex_int s = Some (i, r) ->
  head is_digit i = true /\
  forall t, stops is_digit t = true -> lex_int (i ++ t)%string = Some (i, t).
Proof.
  destruct s as [|x s]; simpl; [discriminate|].
  destruct (x =? "0")%char eqn:Z.
  - intros [= <- <-]. split; reflexivity.
  - destruct (is_digit x) eqn:D; [|discriminate].
    destruct (digits s) as [ds r'] eqn:E. intros [= <- <-]. split; [exact D|].
    intros t Ht. simpl. rewrite Z, D. now rewrite (digits_again _ _ _ E t Ht).
Qed.

Lemma lex_frac_again (s f r : string) :
  lex_frac s = Some (f, r) ->
  (f = EmptyString \/ head is_dot f = true) /\
  forall t, stops is_digit t = true -> stops is_dot t = true ->
            lex_frac (f ++ t)%string = Some (f, t).
Proof.
  assert (Hnil : forall t, stops is_dot t = true -> lex_frac t = Some (EmptyString, t)).
  { intros [|y t] Ht; [reflexivity|]. unfold stops, head, is_dot in Ht.
    apply negb_true_iff, Ascii.eqb_neq in Ht. unfold lex_frac.
    destruct y as [[] [] [] [] [] [] [] []]; try reflexivity. now elim Ht. }
  destruct s as [|x s].
  - intros [= <- <-]. split; [now left|]. intros t _ Ht. now apply Hnil.
  - destruct (x =? ".")%char eqn:Z.
    + apply Ascii.eqb_eq in Z. subst x. simpl.
      destruct (digits s) as [ds r'] eqn:E. destruct ds as [|d ds]; [discriminate|].
      intros [= <- <-]. split; [now right|]. intros t Ht _.
      pose proof (digits_again _ _ _ E t Ht) as H. cbn [append] in H |- *.
      unfold lex_frac. now rewrite H.
    + intros H. assert (H' : f = EmptyString /\ r = String x s).
      { apply Ascii.eqb_neq in Z. unfold lex_frac in H.
        destruct x as [[] [] [] [] [] [] [] []]; try (now injection H as <- <-).
        now elim Z. }
      destruct H' as [-> ->]. split; [now left|]. intros t _ Ht. now apply Hnil.
Qed.

Lemma digit_is_no_sign (x : ascii) (s : string) :
  is_digit x = true ->
  lex_sign (String x s) = (EmptyString, String x s) /\
  lex_minus (String x s) = (EmptyString, String x s).
Proof.
  destruct x as [[] [] [] [] [] [] [] []]; try discriminate; intros _; split; reflexivity.
Qed.

Lemma lex_sign_cases (s sign r : string) :
  lex_sign s = (sign, r) ->
  (sign = "+" \/ sign = "-" \/ sign = EmptyString) /\
  forall u, head is_digit u = true -> lex_sign (sign ++ u)%string = (sign, u).
Proof.
  intros H.
  assert (Hnil : forall u, head is_digit u = true -> lex_sign u = (EmptyString, u)).
  { intros [|y u] Hu; [discriminate|]. now apply digit_is_no_sign. }
  destruct s as [|x s]; [injection H as <- <-; auto|].
  unfold lex_sign in H.
  destruct x as [[] [] [] [] [] [] [] []]; injection H as <- <-; auto.
Qed.

Lemma lex_minus_cases (s sign r : string) :
  lex_minus s = (sign, r) ->
  (sign = "-" \/ sign = EmptyString) /\
  forall u, head is_digit u = true -> lex_minus (sign ++ u)%string = (sign, u).
Proof.
  intros H.
  assert (Hnil : forall u, head is_digit u = true -> lex_minus u = (EmptyString, u)).
  { intros [|y u] Hu; [discriminate|]. now apply digit_is_no_sign. }
  destruct s as [|x s]; [injection H as <- <-; auto|].
  unfold lex_minus in H.
  destruct x as [[] [] [] [] [] [] [] []]; injection H as <- <-; auto.
Qed.

Lemma head_append (p : ascii -> bool) (a b : string) :
  head p a = true -> head p (a ++ b)%string = true.
Proof. now destruct a. Qed.

Lemma stops_append (p q : ascii -> bool) (a b : string) :
  (forall x, q x = true -> p x = false) ->
  (a = EmptyString \/ head q a = true) -> stops p b = true ->
  stops p (a ++ b)%string = true.
Proof.
  intros Hpq [->|Ha] Hb; [exact Hb|]. destruct a as [|x a]; [discriminate|].
  unfold stops. simpl in *. now rewrite (Hpq x Ha).
Qed.

Lemma lex_exp_again (s e r : string) :
  lex_exp s = Some (e, r) ->
  (e = EmptyString \/ head is_e e = true) /\
  forall t, stops is_digit t = true -> stops is_e t = true ->
            lex_exp (e ++ t)%string = Some (e, t).
Proof.
  assert (Hnil : forall t, stops is_e t = true -> lex_exp t = Some (EmptyString, t)).
  { intros [|y t] Ht; [reflexivity|]. unfold stops, head in Ht.
    apply negb_true_iff in Ht. simpl. now rewrite Ht. }
  destruct s as [|x s]; simpl.
  - intros [= <- <-]. split; [now left|]. intros t _ Ht. now apply Hnil.
  - destruct (is_e x) eqn:X.
    + destruct (lex_sign s) as [sign s1] eqn:S.
      destruct (digits s1) as [ds r'] eqn:E.
      destruct ds as [|d ds0] eqn:Eds; [discriminate|]. rewrite <- Eds in *.
      intros [= <- <-]. split; [right; exact X|]. intros t Ht _.
      destruct (lex_sign_cases _ _ _ S) as [_ Hsign].
      assert (Hd : head is_digit ds = true).
      { destruct (digits_head _ _ _ E) as [->|H]; [discriminate | exact H]. }
      simpl. rewrite X, append_assoc.
      rewrite (Hsign (ds ++ t)%string) by (now apply head_append).
      rewrite (digits_again _ _ _ E t Ht). now rewrite Eds.
    + intros [= <- <-]. split; [now left|]. intros t _ Ht. now apply Hnil.
Qed.

Lemma dot_no_digit (x : ascii) : is_dot x = true -> is_digit x = false.
Proof. unfold is_dot. intros ->%Ascii.eqb_eq. reflexivity. Qed.

Lemma e_no_digit (x : ascii) : is_e x = true -> is_digit x = false.
Proof. unfold is_e. intros [->%Ascii.eqb_eq| ->%Ascii.eqb_eq]%orb_true_iff; reflexivity. Qed.

Lemma e_no_dot (x : ascii) : is_e x = true -> is_dot x = false.
Proof. unfold is_e. intros [->%Ascii.eqb_eq| ->%Ascii.eqb_eq]%orb_true_iff; reflexivity. Qed.

(** A literal that was read is read again as itself, whatever closing
    text follows it. *)
Lemma lex_number_again (s l r : string) :
  lex_number s = Some (l, r) ->
  head starts_number l = true /\
  forall t, closes t = true -> lex_number (l ++ t)%string = Some (l, t).
Proof.
  unfold lex_number. destruct (lex_minus s) as [sign s1] eqn:M.
  destruct (lex_int s1) as [[i s2]|] eqn:I; [|discriminate].
  destruct (lex_frac s2) as [[f s3]|] eqn:F; [|discriminate].
  destruct (lex_exp s3) as [[e s4]|] eqn:E; [|discriminate].
  intros [= <- <-].
  destruct (lex_minus_cases _ _ _ M) as [Hsign Hminus].
  destruct (lex_int_again _ _ _ I) as [Hi Hint].
  destruct (lex_frac_again _ _ _ F) as [Hf Hfrac].
  destruct (lex_exp_again _ _ _ E) as [He Hexp].
  split.
  - destruct Hsign as [->| ->]; [reflexivity|]. simpl.
    destruct i as [|x i]; [discriminate|]. simpl in *. unfold starts_number.
    now rewrite Hi, orb_true_r.
  - intros t Ht. destruct (closes_stops t Ht) as (Hd & Hdot & Hee).
    rewrite !append_assoc.
    rewrite Hminus by (now apply head_append).
    assert (Hde : stops is_digit (e ++ t)%string = true)
      by (apply stops_append with (q := is_e); auto using e_no_digit).
    rewrite Hint, Hfrac, Hexp; auto.
    + apply stops_append with (q := is_e); auto using e_no_dot.
    + apply stops_append with (q := is_dot); auto using dot_no_digit.
Qed.






(** *** Doubles *)

Lemma magnitude_eqb_eq (x y : magnitude) : magnitude_eqb x y = true -> x = y.
Proof.
  destruct x, y; simpl; try discriminate; auto.
  intros [H1 H2]%andb_true_iff. apply Z.eqb_eq in H1, H2. now subst.
Qed.

Lemma whole_lex (text : string) :
  whole text = true -> lex_number text = Some (text, EmptyString).
Proof.
  unfold whole. destruct (lex_number text) as [[l [|x r]]|]; try discriminate.
  now intros ->%String.eqb_eq.
Qed.

(** A name that reads back is a literal, and is printed as it is. *)
Lemma reads_back_lex (name : string) :
  reads_back name = true ->
  lex_number name = Some (name, EmptyString) /\ number_text name = name.
Proof.
  unfold reads_back. intros [Hw Hz]%andb_true_iff. split; [now apply whole_lex|].
  unfold number_text, number_ToString.
  apply negb_true_iff in Hz. rewrite Hz.
  destruct (String.eqb_spec name "Infinity") as [->|_]; [discriminate|].
  destruct (String.eqb_spec name "-Infinity") as [->|_]; [discriminate|].
  reflexivity.
Qed.

Lemma lex_minus_unsigned (text s : string) :
  lex_minus text = (EmptyString, s) -> s = text.
Proof.
  destruct text as [|x t]; [now intros [= <-]|]. unfold lex_minus.
  destruct x as [[] [] [] [] [] [] [] []]; now intros [= <-].
Qed.

(** The literal of the opposite number. *)
Lemma decimal_of_literal_minus (text : string) (m q : Z) :
  decimal_of_literal text = (false, m, q) ->
  decimal_of_literal (String "-" text) = (true, m, q).
Proof.
  unfold decimal_of_literal. change (lex_minus (String "-" text)) with ("-", text).
  destruct (lex_minus text) as [sign s] eqn:M.
  destruct (decimal_of_unsigned s) as [m' q'] eqn:D. intros [= Hs <- <-].
  apply negb_false_iff, String.eqb_eq in Hs. subst sign.
  rewrite (lex_minus_unsigned _ _ M) in D. now rewrite D.
Qed.

Lemma reads_as_decimal (x : magnitude) (text : string) :
  reads_as x text = true ->
  exists m q, decimal_of_literal text = (false, m, q) /\ magnitude_of_decimal m q = x.
Proof.
  unfold reads_as. intros [_ H]%andb_true_iff.
  destruct (decimal_of_literal text) as [[sign m] q].
  apply andb_true_iff in H. destruct H as [Hs Hm]. apply negb_true_iff in Hs. subst sign.
  exists m, q. split; [reflexivity | now apply magnitude_eqb_eq].
Qed.

Lemma digits_at_reads (x : magnitude) (num den d k : Z) (text : string) :
  digits_at x num den d k = Some text -> reads_as x text = true.
Proof.
  unfold digits_at. destruct (if (0 <=? d - k)%Z then _ else _) as [a b].
  cbv zeta.
  match goal with |- context [reads_as x ?t] => destruct (reads_as x t) eqn:A end;
    match goal with |- context [reads_as x ?t] => destruct (reads_as x t) eqn:B end;
    try discriminate; intros [= <-]; try assumption.
  match goal with |- context [if ?b then _ else _] => destruct b end; assumption.
Qed.

Lemma shortest_reads (fuel : nat) (x : magnitude) (num den d k : Z) (text : string) :
  shortest fuel x num den d k = Some text -> reads_as x text = true.
Proof.
  revert k. induction fuel as [|fuel IH]; intros k; cbn [shortest]; [discriminate|].
  destruct (digits_at x num den d k) as [t|] eqn:E; [|apply IH].
  intros [= <-]. exact (digits_at_reads _ _ _ _ _ _ E).
Qed.

(** The text of a double is read as that double. *)
Lemma Number_toString_finite_reads (m e : Z) :
  Number_toString_finite m e = "NaN" \/
  reads_as (Finite m e) (Number_toString_finite m e) = true.
Proof.
  unfold Number_toString_finite. destruct (if (0 <=? e)%Z then _ else _) as [num den].
  destruct (shortest _ _ _ _ _ _) as [text|] eqn:S; [right|now left].
  exact (shortest_reads _ _ _ _ _ _ _ S).
Qed.

(** The name of a number that is a literal names the number the literal
    is read as. *)
Lemma canonical_reads_back (name : string) :
  canonical name -> reads_back name = true -> Number_name name = name.
Proof.
  intros [literal ->]. unfold Number_name. generalize (read_literal literal) as x.
  intros [sg [|m e|]]; unfold name_of at 1 3; cbn [absolute negative].
  - destruct sg; [discriminate|]. intros _. vm_compute. reflexivity.
  - destruct (Number_toString_finite_reads m e) as [->|R].
    { destruct sg; discriminate. }
    destruct (reads_as_decimal _ _ R) as (m' & q & Hd & Hm). intros _.
    destruct sg; cbn [append]; unfold read_literal.
    + rewrite (decimal_of_literal_minus _ _ _ Hd). unfold name_of. cbn [absolute negative].
      now rewrite Hm.
    + rewrite Hd. unfold name_of. cbn [absolute negative]. now rewrite Hm.
  - destruct sg; discriminate.
Qed.

(** *** Strings *)

(** Reading a quoted character gives the character back. *)
Lemma lex_string_quote_char (x : ascii) (s : string) :
  lex_string (quote_char x ++ s)%string
  = match lex_string s with
    | Some (t, r) => Some (String x t, r)
    | None => None
    end.
Proof.
  destruct x as [[] [] [] [] [] [] [] []]; reflexivity.
Qed.

Lemma lex_string_quote (s rest : string) :
  lex_string (quote_body s ++ String dquote rest)%string = Some (s, rest).
Proof.
  induction s as [|x s IH]; [reflexivity|].
  cbn [quote_body]. now rewrite append_assoc, lex_string_quote_char, IH.
Qed.

(** *** Objects *)

Lemma has_key_In (o : list (string * json)) (k : string) :
  has_key o k = true <-> In k (keys o).
Proof.
  induction o as [|[k' v'] o IH]; simpl; [easy|].
  rewrite orb_true_iff, String.eqb_eq, IH. tauto.
Qed.

Lemma keys_obj_set (o : list (string * json)) (k : string) (v : json) :
  has_key o k = true -> keys (obj_set o k v) = keys o.
Proof.
  induction o as [|[k' v'] o IH]; simpl; [discriminate|].
  destruct (String.eqb_spec k' k) as [->|Hne]; simpl; [reflexivity|].
  intros H. now rewrite IH.
Qed.

Lemma keys_insert (o : list (string * json)) (k : string) (v : json) (k' : string) :
  In k' (keys (insert o k v)) <-> k' = k \/ In k' (keys o).
Proof.
  induction o as [|[a w] o IH]; simpl; [intuition|].
  destruct (follows k a); simpl; [intuition|]. rewrite IH. intuition.
Qed.

Lemma follows_asym (k k' : string) : follows k k' = true -> follows k' k = false.
Proof.
  unfold follows. destruct (array_index k), (array_index k'); try easy.
  rewrite N.ltb_lt, N.ltb_ge. lia.
Qed.

Lemma follows_before (k k' b : string) :
  follows k k' = true -> follows b k' = false -> follows b k = false.
Proof.
  unfold follows. destruct (array_index k), (array_index k'), (array_index b); try easy.
  rewrite N.ltb_lt, !N.ltb_ge. lia.
Qed.

Lemma insert_ordered (o : list (string * json)) (k : string) (v : json) :
  ordered (keys o) -> ~ In k (keys o) -> ordered (keys (insert o k v)).
Proof.
  induction o as [|[a w] o IH]; simpl; intros Ho Hk.
  - split; [easy|exact I].
  - destruct Ho as [Ha Ho]. destruct (follows k a) eqn:F; simpl.
    + split; [|split; assumption].
      intros k' [<-|Hin].
      * split; [intuition | now apply follows_asym].
      * split; [intros ->; intuition|]. destruct (Ha k' Hin) as [_ Hf].
        now apply follows_before with (k' := a).
    + split; [|apply IH; intuition].
      intros k' Hin. apply keys_insert in Hin. destruct Hin as [->|Hin]; [|auto].
      split; [intuition | exact F].
Qed.

Lemma define_ordered (o : list (string * json)) (k : string) (v : json) :
  ordered (keys o) -> ordered (keys (define o k v)).
Proof.
  intros Ho. unfold define. destruct (has_key o k) eqn:H.
  - now rewrite keys_obj_set.
  - apply insert_ordered; [exact Ho|]. rewrite <- has_key_In. now rewrite H.
Qed.

Lemma fold_define_ordered (ms acc : list (string * json)) :
  ordered (keys acc) -> ordered (keys (fold_left define_member ms acc)).
Proof.
  revert acc. induction ms as [|[k v] ms IH]; simpl; intros acc Ha; [exact Ha|].
  apply IH. now apply define_ordered.
Qed.

Lemma ordered_snoc (ks : list string) (k : string) :
  ordered (ks ++ [k]) ->
  ordered ks /\ ~ In k ks /\ forall a, In a ks -> follows k a = false.
Proof.
  induction ks as [|a ks IH]; simpl; [intuition|].
  intros [Ha Hks]. destruct (IH Hks) as (Ho & Hn & Hf).
  destruct (Ha k) as [Hne Hfa]; [apply in_or_app; simpl; auto|].
  split; [split; [|exact Ho]|split].
  - intros k' Hin. apply Ha. apply in_or_app. now left.
  - intros [->|Hin]; [now apply Hne | now apply Hn].
  - intros b [<-|Hin]; [exact Hfa | now apply Hf].
Qed.

Lemma insert_last (o : list (string * json)) (k : string) (v : json) :
  (forall a, In a (keys o) -> follows k a = false) -> insert o k v = o ++ [(k, v)].
Proof.
  induction o as [|[a w] o IH]; simpl; intros H; [reflexivity|].
  rewrite (H a) by now left. rewrite IH; [reflexivity|]. intros b Hb. apply H. now right.
Qed.

(** Defining the members of an ordered object one after the other builds
    the object again. *)
Lemma fold_define_again (o acc : list (string * json)) :
  ordered (keys (acc ++ o)) -> fold_left define_member o acc = acc ++ o.
Proof.
  revert acc. induction o as [|[k v] o IH]; simpl; intros acc H.
  - now rewrite app_nil_r.
  - assert (Hacc : define acc k v = acc ++ [(k, v)]).
    { assert (Hpre : ordered (keys (acc ++ [(k, v)]))).
      { clear IH. change ((k, v) :: o) with ([(k, v)] ++ o) in H.
        rewrite app_assoc in H. unfold keys in *. rewrite map_app in H.
        revert H. generalize (map fst (acc ++ [(k, v)])) as l.
        induction l as [|a l IHl]; simpl; [easy|].
        intros [Ha Hl]. split; [|now apply IHl].
        intros k' Hin. apply Ha. apply in_or_app. now left. }
      unfold keys in Hpre. rewrite map_app in Hpre. simpl in Hpre.
      destruct (ordered_snoc _ _ Hpre) as (_ & Hn & Hf).
      unfold define. fold (keys acc) in Hn.
      destruct (has_key acc k) eqn:Hk; [now apply has_key_In in Hk|].
      now apply insert_last. }
    unfold define_member at 2. simpl. rewrite Hacc, IH; rewrite <- app_assoc; [reflexivity|exact H].
Qed.

(** *** Values *)

Lemma well_formed_array (l : list json) :
  well_formed (JArray l) <-> Forall well_formed l.
Proof.
  simpl. induction l as [|v l IH]; [easy|].
  rewrite IH. split; [intros [H1 H2]; now constructor | now inversion 1].
Qed.

Lemma well_formed_object (o : list (string * json)) :
  well_formed (JObject o) <-> ordered (keys o) /\ Forall member_well_formed o.
Proof.
  simpl. apply and_iff_compat_l. induction o as [|kv o IH]; [easy|].
  rewrite IH. split; [intros [H1 H2]; now constructor | now inversion 1].
Qed.

Lemma parsed_array (l : list json) :
  parsed (JArray l) <-> Forall parsed l.
Proof.
  simpl. induction l as [|v l IH]; [easy|].
  rewrite IH. split; [intros [H1 H2]; now constructor | now inversion 1].
Qed.

Lemma parsed_object (o : list (string * json)) :
  parsed (JObject o) <-> ordered (keys o) /\ Forall member_parsed o.
Proof.
  simpl. apply and_iff_compat_l. induction o as [|kv o IH]; [easy|].
  rewrite IH. split; [intros [H1 H2]; now constructor | now inversion 1].
Qed.

Lemma obj_set_parsed (o : list (string * json)) (k : string) (v : json) :
  Forall member_parsed o -> parsed v ->
  Forall member_parsed (obj_set o k v).
Proof.
  induction 1 as [|[a w] o Hw Ho IH]; simpl; intros Hv.
  - now repeat constructor.
  - destruct (a =? k)%string; constructor; auto.
Qed.

Lemma insert_parsed (o : list (string * json)) (k : string) (v : json) :
  Forall member_parsed o -> parsed v ->
  Forall member_parsed (insert o k v).
Proof.
  induction 1 as [|[a w] o Hw Ho IH]; simpl; intros Hv.
  - now repeat constructor.
  - destruct (follows k a); repeat constructor; auto.
Qed.

Lemma fold_define_parsed (ms acc : list (string * json)) :
  Forall member_parsed ms -> Forall member_parsed acc ->
  Forall member_parsed (fold_left define_member ms acc).
Proof.
  revert acc. induction ms as [|[k v] ms IH]; simpl; intros acc Hms Hacc; [exact Hacc|].
  inversion Hms as [|? ? Hv Hms']; subst. apply IH; [exact Hms'|].
  unfold define_member, define. simpl.
  destruct (has_key acc k); auto using obj_set_parsed, insert_parsed.
Qed.

Lemma object_of_parsed (ms : list (string * json)) :
  Forall member_parsed ms -> parsed (object_of ms).
Proof.
  intros H. unfold object_of. apply parsed_object. split.
  - now apply (fold_define_ordered ms []).
  - now apply (fold_define_parsed ms []).
Qed.

(** What the parser returns has the shape of a parsed value. *)
Lemma parse_parsed (fuel : nat) :
  (forall s v r, parse_value fuel s = Some (v, r) -> parsed v) /\
  (forall s l r, parse_elements fuel s = Some (l, r) -> Forall parsed l) /\
  (forall s o r, parse_members fuel s = Some (o, r) -> Forall member_parsed o).
Proof.
  induction fuel as [|fuel (IHv & IHe & IHm)]; [repeat split; discriminate|].
  repeat split.
  - intros s v r. cbn [parse_value].
    destruct (strip "{" s) as [s1|].
    { destruct (strip "}" (skip_ws s1)); [now intros [= <- <-]|].
      destruct (parse_members fuel (skip_ws s1)) as [[ms r']|] eqn:E; [|discriminate].
      intros [= <- <-]. apply object_of_parsed. eauto. }
    destruct (strip "[" s) as [s1|].
    { destruct (strip "]" (skip_ws s1)); [now intros [= <- <-]|].
      destruct (parse_elements fuel (skip_ws s1)) as [[l r']|] eqn:E; [|discriminate].
      intros [= <- <-]. apply parsed_array. eauto. }
    destruct (strip (String dquote "") s) as [s1|].
    { destruct (lex_string s1) as [[t r']|]; [|discriminate]. now intros [= <- <-]. }
    destruct (strip "true" s); [now intros [= <- <-]|].
    destruct (strip "false" s); [now intros [= <- <-]|].
    destruct (strip "null" s); [now intros [= <- <-]|].
    destruct (lex_number s) as [[l r']|] eqn:E; [|discriminate].
    intros [= <- <-]. simpl. now exists l.
  - intros s l r. cbn [parse_elements].
    destruct (parse_value fuel s) as [[v r1]|] eqn:E; [|discriminate].
    destruct (strip "," (skip_ws r1)) as [r2|].
    + destruct (parse_elements fuel (skip_ws r2)) as [[vs r3]|] eqn:E'; [|discriminate].
      intros [= <- <-]. constructor; eauto.
    + destruct (strip "]" (skip_ws r1)); [|discriminate].
      intros [= <- <-]. constructor; eauto.
  - intros s o r. cbn [parse_members].
    destruct (strip (String dquote "") s) as [s1|]; [|discriminate].
    destruct (lex_string s1) as [[k r1]|]; [|discriminate].
    destruct (strip ":" (skip_ws r1)) as [r2|]; [|discriminate].
    destruct (parse_value fuel (skip_ws r2)) as [[v r3]|] eqn:E; [|discriminate].
    destruct (strip "," (skip_ws r3)) as [r4|].
    + destruct (parse_members fuel (skip_ws r4)) as [[ms r5]|] eqn:E'; [|discriminate].
      intros [= <- <-]. constructor; [exact (IHv _ _ _ E) | eauto].
    + destruct (strip "}" (skip_ws r3)); [|discriminate].
      intros [= <- <-]. constructor; [exact (IHv _ _ _ E) | constructor].
Qed.

Lemma stringify_array (l : list json) (rest : string) :
  (stringify (JArray l) ++ rest)%string
  = String "[" (elements_text l ++ String "]" rest).
Proof.
  change (stringify (JArray l)) with (String "[" (elements_text l ++ "]")).
  cbn [append]. now rewrite append_assoc.
Qed.

Lemma stringify_object (o : list (string * json)) (rest : string) :
  (stringify (JObject o) ++ rest)%string
  = String "{" (members_text o ++ String "}" rest).
Proof.
  change (stringify (JObject o)) with (String "{" (members_text o ++ "}")).
  cbn [append]. now rewrite append_assoc.
Qed.

Lemma stringify_string (s rest : string) :
  (stringify (JString s) ++ rest)%string
  = String dquote (quote_body s ++ String dquote rest).
Proof. cbn [stringify]. unfold quote. cbn [append]. now rewrite append_assoc. Qed.

Lemma quote_append (k tail : string) :
  (quote k ++ tail)%string = String dquote (quote_body k ++ String dquote tail).
Proof. unfold quote. cbn [append]. now rewrite append_assoc. Qed.

Lemma size_array (l : list json) : size (JArray l) = S (sizes l).
Proof. reflexivity. Qed.

Lemma size_object (o : list (string * json)) : size (JObject o) = S (member_sizes o).
Proof. reflexivity. Qed.

Lemma value_head_skip (s : string) :
  head value_head s = true ->
  skip_ws s = s /\ trimStart s = s /\
  strip "]" s = None /\ strip "}" s = None /\ strip "," s = None.
Proof.
  destruct s as [|x s]; [discriminate|]. simpl.
  destruct x as [[] [] [] [] [] [] [] []]; try discriminate; intros _; repeat split.
Qed.

Lemma number_head_strip (s : string) :
  head starts_number s = true ->
  strip "{" s = None /\ strip "[" s = None /\ strip (String dquote "") s = None /\
  strip "true" s = None /\ strip "false" s = None /\ strip "null" s = None /\
  head value_head s = true.
Proof.
  destruct s as [|x s]; [discriminate|]. simpl.
  destruct x as [[] [] [] [] [] [] [] []]; try discriminate; intros _; repeat split.
Qed.

Lemma stringify_head (v : json) (rest : string) :
  well_formed v -> head value_head (stringify v ++ rest)%string = true.
Proof.
  destruct v as [|[]|l|s|l|o]; try reflexivity.
  cbn [well_formed stringify]. intros [H _].
  destruct (reads_back_lex _ H) as [Hl ->].
  destruct (lex_number_again _ _ _ Hl) as [Hh _].
  apply number_head_strip. now apply head_append.
Qed.

Lemma elements_head (v : json) (l : list json) (rest : string) :
  well_formed v -> head value_head (elements_text (v :: l) ++ rest)%string = true.
Proof.
  intros Hv. destruct l; cbn [elements_text]; rewrite ?append_assoc;
    now apply stringify_head.
Qed.

Lemma members_head (kv : string * json) (o : list (string * json)) (rest : string) :
  head value_head (members_text (kv :: o) ++ rest)%string = true.
Proof. destruct kv, o as [|[? ?] ?]; reflexivity. Qed.

Lemma elements_text_cons (v w : json) (l : list json) :
  elements_text (v :: w :: l)
  = (stringify v ++ String "," (elements_text (w :: l)))%string.
Proof. reflexivity. Qed.

Lemma members_text_cons (k : string) (v : json) (kw : string * json)
      (o : list (string * json)) :
  members_text ((k, v) :: kw :: o)
  = (quote k ++ String ":" (stringify v ++ String "," (members_text (kw :: o))))%string.
Proof. reflexivity. Qed.

(** The parser on a text whose first character tells what is read. *)
Lemma parse_array (fuel : nat) (s : string) :
  parse_value (S fuel) (String "[" s)
  = match strip "]" (skip_ws s) with
    | Some rest => Some (JArray [], rest)
    | None =>
        match parse_elements fuel (skip_ws s) with
        | Some (elements, rest) => Some (JArray elements, rest)
        | None => None
        end
    end.
Proof. reflexivity. Qed.

Lemma parse_object (fuel : nat) (s : string) :
  parse_value (S fuel) (String "{" s)
  = match strip "}" (skip_ws s) with
    | Some rest => Some (JObject [], rest)
    | None =>
        match parse_members fuel (skip_ws s) with
        | Some (members, rest) => Some (object_of members, rest)
        | None => None
        end
    end.
Proof. reflexivity. Qed.

Lemma parse_string (fuel : nat) (s : string) :
  parse_value (S fuel) (String dquote s)
  = match lex_string s with
    | Some (t, rest) => Some (JString t, rest)
    | None => None
    end.
Proof. reflexivity. Qed.

Lemma parse_number (fuel : nat) (s : string) :
  head starts_number s = true ->
  parse_value (S fuel) s
  = match lex_number s with
    | Some (literal, rest) => Some (JNumber (Number_name literal), rest)
    | None => None
    end.
Proof.
  intros H. destruct (number_head_strip s H) as (H1 & H2 & H3 & H4 & H5 & H6 & _).
  cbn [parse_value]. now rewrite H1, H2, H3, H4, H5, H6.
Qed.

Lemma parse_elements_step (fuel : nat) (s : string) :
  parse_elements (S fuel) s
  = match parse_value fuel s with
    | Some (v, rest) =>
        match strip "," (skip_ws rest) with
        | Some rest =>
            match parse_elements fuel (skip_ws rest) with
            | Some (vs, rest) => Some (v :: vs, rest)
            | None => None
            end
        | None =>
            match strip "]" (skip_ws rest) with
            | Some rest => Some ([v], rest)
            | None => None
            end
        end
    | None => None
    end.
Proof. reflexivity. Qed.

Lemma parse_members_step (fuel : nat) (s : string) :
  parse_members (S fuel) (String dquote s)
  = match lex_string s with
    | Some (k, rest) =>
        match strip ":" (skip_ws rest) with
        | Some rest =>
            match parse_value fuel (skip_ws rest) with
            | Some (v, rest) =>
                match strip "," (skip_ws rest) with
                | Some rest =>
                    match parse_members fuel (skip_ws rest) with
                    | Some (ms, rest) => Some ((k, v) :: ms, rest)
                    | None => None
                    end
                | None =>
                    match strip "}" (skip_ws rest) with
                    | Some rest => Some ([(k, v)], rest)
                    | None => None
                    end
                end
            | None => None
            end
        | None => None
        end
    | None => None
    end.
Proof. reflexivity. Qed.

(** Reading a printed value gives the value back, and leaves what
    follows it. *)
Lemma parse_stringify_value (fuel : nat) :
  (forall v rest, well_formed v -> size v <= fuel -> closes rest = true ->
                  parse_value fuel (stringify v ++ rest)%string = Some (v, rest)) /\
  (forall l rest, l <> [] -> Forall well_formed l -> sizes l <= fuel ->
                  parse_elements fuel (elements_text l ++ String "]" rest)%string
                  = Some (l, rest)) /\
  (forall o rest, o <> [] -> Forall member_well_formed o -> member_sizes o <= fuel ->
                  parse_members fuel (members_text o ++ String "}" rest)%string
                  = Some (o, rest)).
Proof.
  induction fuel as [|fuel (IHv & IHe & IHm)].
  { repeat split.
    - intros v rest _ H. destruct v; simpl in H; lia.
    - intros [|v l] rest H _ Hs; [easy | simpl in Hs; lia].
    - intros [|kv o] rest H _ Hs; [easy | simpl in Hs; lia]. }
  repeat split.
  - intros v rest Hw Hs Hc. destruct v as [|[]|lit|s|l|o]; try reflexivity.
    + (* number *)
      cbn [well_formed] in Hw. destruct Hw as [Hr Hn].
      destruct (reads_back_lex _ Hr) as [Hlex Ht].
      destruct (lex_number_again _ _ _ Hlex) as [Hh Hl].
      cbn [stringify]. rewrite Ht, parse_number by (now apply head_append).
      now rewrite (Hl rest Hc), Hn.
    + (* string *)
      now rewrite stringify_string, parse_string, lex_string_quote.
    + (* array *)
      rewrite size_array in Hs. apply well_formed_array in Hw.
      rewrite stringify_array, parse_array. destruct l as [|v l]; [reflexivity|].
      inversion Hw as [|? ? Hv Hl]; subst.
      destruct (value_head_skip _ (elements_head v l (String "]" rest) Hv))
        as (-> & _ & -> & _).
      rewrite IHe; [reflexivity | discriminate | exact Hw | lia].
    + (* object *)
      rewrite size_object in Hs. apply well_formed_object in Hw. destruct Hw as [Hord Hw].
      rewrite stringify_object, parse_object. destruct o as [|kv o]; [reflexivity|].
      destruct (value_head_skip _ (members_head kv o (String "}" rest)))
        as (-> & _ & _ & -> & _).
      rewrite IHm; [|discriminate | exact Hw | lia].
      change (object_of (kv :: o)) with (JObject (fold_left define_member (kv :: o) [])).
      now rewrite (fold_define_again (kv :: o) []).
  - intros l rest Hne Hw Hs. destruct l as [|v l]; [easy|].
    inversion Hw as [|? ? Hv Hl]; subst. cbn [sizes fold_right] in Hs. fold (sizes l) in Hs.
    rewrite parse_elements_step. destruct l as [|w l].
    + cbn [elements_text]. rewrite IHv; [reflexivity | exact Hv | lia | reflexivity].
    + rewrite elements_text_cons, append_assoc. cbn [append].
      rewrite IHv; [|exact Hv | lia | reflexivity].
      change (strip "," (skip_ws (String "," ?t))) with (Some t). cbv beta iota.
      inversion Hl as [|? ? Hw' Hl']; subst.
      destruct (value_head_skip _ (elements_head w l (String "]" rest) Hw')) as (-> & _).
      rewrite IHe; [reflexivity | discriminate | exact Hl | lia].
  - intros o rest Hne Hw Hs. destruct o as [|[k v] o]; [easy|].
    inversion Hw as [|? ? Hv Ho]; subst. cbn [member_sizes fold_right snd] in Hs.
    fold (member_sizes o) in Hs. unfold member_well_formed in Hv. simpl in Hv.
    destruct o as [|kw o].
    + cbn [members_text]. rewrite append_assoc, quote_append. cbn [append].
      rewrite parse_members_step, lex_string_quote.
      change (strip ":" (skip_ws (String ":" ?t))) with (Some t). cbv beta iota.
      destruct (value_head_skip _ (stringify_head v (String "}" rest) Hv)) as (-> & _).
      rewrite IHv; [reflexivity | exact Hv | lia | reflexivity].
    + rewrite members_text_cons, append_assoc, quote_append. cbn [append].
      rewrite parse_members_step, lex_string_quote, append_assoc. cbn [append].
      change (strip ":" (skip_ws (String ":" ?t))) with (Some t). cbv beta iota.
      match goal with |- context [parse_value fuel (skip_ws ?t)] =>
        destruct (value_head_skip t) as (-> & _); [now apply stringify_head|] end.
      rewrite IHv; [|exact Hv | lia | reflexivity].
      change (strip "," (skip_ws (String "," ?t))) with (Some t). cbv beta iota.
      destruct (value_head_skip _ (members_head kw o (String "}" rest))) as (-> & _).
      rewrite IHm; [reflexivity | discriminate | exact Ho | lia].
Qed.

(** Induction on a value, with the property on the elements of an array
    and on the values of the members of an object. *)
Lemma json_induction (Q : json -> Prop) :
  Q JNull -> (forall b, Q (JBool b)) -> (forall literal, Q (JNumber literal)) ->
  (forall s, Q (JString s)) ->
  (forall l, Forall Q l -> Q (JArray l)) ->
  (forall o, Forall (fun kv => Q (snd kv)) o -> Q (JObject o)) ->
  forall j, Q j.
Proof.
  intros Hnull Hbool Hnum Hstr Harr Hobj.
  fix IH 1. intros [|b|literal|s|l|o];
    [exact Hnull | apply Hbool | apply Hnum | apply Hstr | |].
  - apply Harr. induction l as [|v l IHl]; constructor; [apply IH | exact IHl].
  - apply Hobj. induction o as [|kv o IHo]; constructor; [apply IH | exact IHo].
Qed.

Lemma length_append (a b : string) :
  String.length (a ++ b)%string = String.length a + String.length b.
Proof. induction a as [|x a IH]; simpl; [reflexivity | now rewrite IH]. Qed.

(** Its text is at least as long as a value is large. *)
Lemma size_le_length (v : json) :
  well_formed v -> size v <= String.length (stringify v).
Proof.
  induction v as [|b|literal|s|l IH|o IH] using json_induction; intros Hw.
  - simpl. lia.
  - destruct b; simpl; lia.
  - cbn [well_formed] in Hw. destruct Hw as [Hr _].
    destruct (reads_back_lex _ Hr) as [Hlex Ht].
    destruct (lex_number_again _ _ _ Hlex) as [Hh _].
    cbn [stringify size]. rewrite Ht.
    destruct literal; [discriminate | simpl; lia].
  - simpl. lia.
  - apply well_formed_array in Hw. rewrite size_array.
    rewrite <- (append_nil_r (stringify (JArray l))), stringify_array.
    cbn [String.length]. rewrite length_append. cbn [String.length].
    enough (sizes l <= 1 + String.length (elements_text l)) by lia.
    induction l as [|v [|w l] IHl]; [simpl; lia | |].
    + inversion IH as [|? ? Hv _]; inversion Hw; subst.
      cbn [sizes fold_right elements_text]. specialize (Hv ltac:(assumption)). lia.
    + inversion IH as [|? ? Hv IH']; inversion Hw as [|? ? Hwv Hw']; subst.
      rewrite elements_text_cons, length_append. cbn [String.length].
      specialize (IHl IH' Hw'). specialize (Hv Hwv).
      change (sizes (v :: w :: l)) with (S (size v) + sizes (w :: l)). lia.
  - apply well_formed_object in Hw. destruct Hw as [_ Hw]. rewrite size_object.
    rewrite <- (append_nil_r (stringify (JObject o))), stringify_object.
    cbn [String.length]. rewrite length_append. cbn [String.length].
    enough (member_sizes o <= 1 + String.length (members_text o)) by lia.
    induction o as [|[k v] [|kw o] IHo]; [simpl; lia | |].
    + inversion IH as [|? ? Hv _]; inversion Hw; subst.
      cbn [member_sizes fold_right members_text snd]. rewrite length_append.
      cbn [String.length]. specialize (Hv ltac:(assumption)). simpl in Hv. lia.
    + inversion IH as [|? ? Hv IH']; inversion Hw as [|? ? Hwv Hw']; subst.
      rewrite members_text_cons, !length_append. cbn [String.length].
      rewrite length_append. cbn [String.length].
      specialize (IHo IH' Hw'). specialize (Hv Hwv). simpl in Hv.
      change (member_sizes ((k, v) :: kw :: o))
        with (S (size v) + member_sizes (kw :: o)). lia.
Qed.

(** *** [JSON.parse (JSON.stringify value)] *)

Lemma parse_inl (text : string) (v : json) :
  parse text = inl v -> parsed v.
Proof.
  unfold parse.
  destruct (parse_value _ _) as [[v' rest]|] eqn:E; [|discriminate].
  destruct (skip_ws rest =? "")%string; [|discriminate].
  intros [= <-]. exact (proj1 (parse_parsed _) _ _ _ E).
Qed.

(** A parsed value whose numbers read back is read back. *)
Lemma parsed_well_formed (v : json) :
  parsed v -> numbers_read_back v = true -> well_formed v.
Proof.
  induction v as [|b|name|s|l IH|o IH] using json_induction; intros Hp Hr;
    try exact I.
  - cbn [parsed numbers_read_back well_formed] in *.
    split; [exact Hr | now apply canonical_reads_back].
  - apply parsed_array in Hp. apply well_formed_array.
    cbn [numbers_read_back] in Hr. rewrite forallb_forall in Hr.
    rewrite Forall_forall in *. auto.
  - apply parsed_object in Hp. destruct Hp as [Ho Hp]. apply well_formed_object.
    split; [exact Ho|].
    cbn [numbers_read_back] in Hr. rewrite forallb_forall in Hr.
    rewrite Forall_forall in *. intros kv Hin. apply (IH kv Hin); auto.
    now apply Hp.
Qed.

Lemma parse_stringify_well_formed (v : json) :
  well_formed v -> parse (stringify v) = inl v.
Proof.
  intros Hw. unfold parse.
  pose proof (stringify_head v EmptyString Hw) as Hh. rewrite append_nil_r in Hh.
  destruct (value_head_skip _ Hh) as (-> & _).
  pose proof (proj1 (parse_stringify_value (2 * String.length (stringify v) + 2))
                    v EmptyString Hw) as H.
  rewrite append_nil_r in H. rewrite H; [reflexivity | | reflexivity].
  pose proof (size_le_length v Hw). lia.
Qed.

(** Parsing the text of a parsed value gives the value again, when the
    numbers of the value read back. *)
Theorem parse_stringify_text (text : string) (v : json) :
  parse text = inl v -> numbers_read_back v = true -> parse (stringify v) = inl v.
Proof.
  intros H Hn. apply parse_stringify_well_formed.
  apply parsed_well_formed; [exact (parse_inl text v H) | exact Hn].
Qed.

(** *** No white space around the text of a value *)




End JSONFacts.

(** ** Response handlers *)

Section Handlers.
Context {P : Platform}.
Variable c : client.
Variable env : environment.

(** A rejected status: whatever the parser does afterwards, the promise
    of [process] stays rejected with the status error. *)
Lemma process_rejected (h : handler) (res : response) (st : state) :
  h <> processAuth_bound ->
  status_accepted res = false ->
  snd (run_handler env h res st) = Rejected (bad_response res).
Proof.
  intros Hh Hs.
  destruct h; try contradiction; clear Hh; simpl;
    unfold processJSON, processFile, processResponse, process; rewrite Hs; simpl.
  - unfold parseJSON.
    destruct (negb _); [destruct (JSON_parse _)|]; reflexivity.
  - unfold saveToFile. destruct (writeFile_error _ _ _ _); reflexivity.
  - unfold parseResponse. destruct (negb _); reflexivity.
Qed.

(** An accepted status: the promise is settled by the parser alone. *)
Lemma process_accepted (res : response) parser (st : state) :
  status_accepted res = true ->
  process res parser st = parser (trim (body res)) Pending st.
Proof. intros Hs. unfold process. now rewrite Hs. Qed.

Lemma accepted_not_status_error (h : handler) (res : response) (st : state) :
  h <> processAuth_bound ->
  status_accepted res = true ->
  snd (run_handler env h res st) <> Rejected (bad_response res).
Proof.
  intros Hh Hs.
  destruct h; try contradiction; clear Hh; simpl;
    unfold processJSON, processFile, processResponse; rewrite process_accepted by assumption.
  - unfold parseJSON. destruct (negb _); [destruct (JSON_parse _)|]; simpl; discriminate.
  - unfold saveToFile. destruct (writeFile_error _ _ _ _); simpl; discriminate.
  - unfold parseResponse. destruct (negb _); simpl; discriminate.
Qed.

(** C1, amended.  For the JSON, raw and file handlers, on a status code
    of at most three digits: the response passes the status test exactly
    when the code is one of 200..209, and the handler ends in the status
    error, which carries the code and the raw body, exactly when it does
    not pass.  So 200 and 204 pass; 299, 300, 401 and 500 do not. *)
Theorem status_check (h : handler) (res : response) (st : state) :
  h <> processAuth_bound ->
  (statusCode res < 1000)%N ->
  (status_accepted res = true <-> (200 <= statusCode res <= 209)%N) /\
  (snd (run_handler env h res st) = Rejected (bad_response res)
   <-> status_accepted res = false) /\
  (statusCode res = 200%N \/ statusCode res = 204%N -> status_accepted res = true) /\
  (statusCode res = 299%N \/ statusCode res = 300%N \/
   statusCode res = 401%N \/ statusCode res = 500%N -> status_accepted res = false) /\
  message (bad_response res)
  = ("Bad Response From API: Status Code " ++ N_toString (statusCode res)
     ++ " | " ++ body res)%string.
Proof.
  intros Hh Hs.
  assert (Hrange : status_accepted res = true <-> (200 <= statusCode res <= 209)%N)
    by (apply match_20_digit_range, Hs).
  split; [exact Hrange|]. split; [|split; [|split]].
  - split.
    + intros Hrej. apply not_true_is_false. intros E.
      exact (accepted_not_status_error h res st Hh E Hrej).
    + now apply process_rejected.
  - intros H. apply Hrange. lia.
  - intros H. apply not_true_is_false. intros E. apply Hrange in E. lia.
  - reflexivity.
Qed.

(** C10.  The file handler on a response that fails the status test: the
    promise is rejected with the status error, and [fs.writeFile] is
    still called with the trimmed body, which the file then holds unless
    the write itself fails. *)
Theorem rejected_status_still_writes_file (filepath : string) (res : response) (st : state) :
  status_accepted res = false ->
  exists st',
    processFile env filepath res st = (st', Rejected (bad_response res)) /\
    log st' = log st ++ [EvWriteFile filepath (trim (body res))] /\
    (writeFile_error env (requests st) filepath (trim (body res)) = None ->
     obj_get (files st') filepath = Some (trim (body res))).
Proof.
  intros Hs. unfold processFile, process, saveToFile. rewrite Hs.
  destruct (writeFile_error _ _ _ _) eqn:E; eexists; (split; [reflexivity|]);
    split; try reflexivity; try discriminate.
  intros _. simpl. apply obj_get_set.
Qed.

(** What [processAuth] does with a body that is no JSON text, or is the
    text [null]: it rejects, and the token is as before. *)
Lemma processAuth_unparseable (res : response) (st : state) :
  (exists e, JSON_parse (body res) = inr e) \/ JSON_parse (body res) = inl JNull ->
  processAuth res st = (st, Rejected auth_error).
Proof. unfold processAuth. now intros [[e ->]| ->]. Qed.

(** With any other body it fulfils and overwrites the token, whatever
    the status code. *)
Lemma processAuth_parsed (res : response) (st : state) (value : json) (t : jsval) :
  JSON_parse (body res) = inl value ->
  get_access_token value = Some t ->
  processAuth res st = (set_token t st, Fulfilled t).
Proof. unfold processAuth. now intros -> ->. Qed.

End Handlers.

Section JSONHandler.


End JSONHandler.

(** ** Traces *)

Lemma count_app f l l' : count f (l ++ l') = count f l + count f l'.
Proof. unfold count. now rewrite filter_app, length_app. Qed.

Lemma callbacks_app l l' : callbacks (l ++ l') = callbacks l ++ callbacks l'.
Proof. apply flat_map_app. Qed.

Lemma log_emit e st : log (emit e st) = log st ++ [e].
Proof. reflexivity. Qed.

Section Pipeline.
Context {P : Platform}.
Variable c : client.
Variable env : environment.


(** *** Enough fuel *)

Lemma depth_auth_descriptor cb : depth (auth_descriptor c cb) = 1.
Proof. reflexivity. Qed.

Lemma depth_set_retry r : r_retry r = false -> depth (set_retry r) < depth r.
Proof. unfold depth. simpl. intros ->. lia. Qed.

Lemma gate_closed_depth r st : checkAuthentication r st = false -> 1 < depth r.
Proof.
  unfold checkAuthentication, depth. rewrite orb_false_iff. intros [_ ->]. lia.
Qed.

(** The chain calls [submit] only on descriptors of a smaller depth. *)
Lemma chain_ext submit1 submit2 r st :
  (forall r' st', depth r' < depth r -> submit1 r' st' = submit2 r' st') ->
  chain c env submit1 r st = chain c env submit2 r st.
Proof.
  intros H. unfold chain, attempt, gate_catch_authenticate.
  destruct (checkAuthentication r st) eqn:G.
  - destruct (then_execute c env r st (Fulfilled Undefined)) as [st1 [v|e|]]; simpl; auto.
    unfold decideWhetherToRequeue.
    destruct (_ && negb (r_retry r)) eqn:D; auto.
    rewrite H; auto. apply depth_set_retry.
    apply andb_true_iff in D. now destruct D as [_ ->%negb_true_iff].
  - unfold authenticate.
    rewrite H by (rewrite depth_auth_descriptor; eauto using gate_closed_depth).
    destruct (submit2 _ _) as [[[r1 st1] p1]|]; auto.
    destruct (then_execute c env r st1 p1) as [st2 [v|e|]]; simpl; auto.
    unfold decideWhetherToRequeue.
    destruct (_ && negb (r_retry r)) eqn:D; auto.
    rewrite H; auto. apply depth_set_retry.
    apply andb_true_iff in D. now destruct D as [_ ->%negb_true_iff].
Qed.

Lemma fuel_irrelevant f1 : forall f2 r st,
  depth r < f1 -> depth r < f2 ->
  criteoApiRequest c env f1 r st = criteoApiRequest c env f2 r st.
Proof.
  induction f1 as [|f1 IH]; intros [|f2] r st H1 H2; try lia.
  simpl. apply chain_ext. intros r' st' Hd. apply IH; lia.
Qed.

Lemma depth_le_3 r : depth r <= 3.
Proof. unfold depth. destruct (_ =? _)%string, (r_retry r); simpl; lia. Qed.

(** A property of every submission follows from one step of the chain
    over a [submit] that has the property on smaller descriptors. *)
Lemma criteoApiRequest_spec (Spec : descriptor -> state -> submission -> Prop) :
  (forall submit r st,
      (forall r' st', depth r' < depth r ->
                      exists res, submit r' st' = Some res /\ Spec r' st' res) ->
      exists res, chain c env submit r st = Some res /\ Spec r st res) ->
  forall fuel r st, depth r < fuel ->
    exists res, criteoApiRequest c env fuel r st = Some res /\ Spec r st res.
Proof.
  intros Hstep. induction fuel as [|fuel IH]; intros r st Hd; [lia|].
  simpl. apply Hstep. intros r' st' Hd'. apply IH. lia.
Qed.



(** *** What one stage adds to the trace *)

Lemma run_handler_trace h res st :
  exists tail,
    log (fst (run_handler env h res st)) = log st ++ tail /\ io_tail tail /\
    snd (run_handler env h res st) <> Pending.
Proof.
  destruct h; simpl.
  - exists []. rewrite app_nil_r. unfold processAuth.
    destruct (JSON_parse _) as [j|]; [destruct (get_access_token j)|]; simpl;
      repeat split; try (now left); discriminate.
  - exists []. rewrite app_nil_r. unfold processJSON, process, parseJSON.
    destruct (status_accepted res), (negb _); try destruct (JSON_parse _); simpl;
      repeat split; try (now left); discriminate.
  - exists [EvWriteFile filepath (trim (body res))].
    unfold processFile, process, saveToFile.
    destruct (status_accepted res), (writeFile_error _ _ _ _); simpl;
      repeat split; try (right; eauto); discriminate.
  - exists []. rewrite app_nil_r. unfold processResponse, process, parseResponse.
    destruct (status_accepted res), (negb _); simpl;
      repeat split; try (now left); discriminate.
Qed.

Lemma send_trace m req st :
  exists o, log (fst (send c env m req st)) = log st ++ [EvSend o].
Proof.
  destruct m; simpl; unfold request, apiGet, apiPost, apiPut, apiPatch, apiDelete,
    apiRequest, _request; simpl; unfold http_request;
    match goal with |- context [net env ?n ?o] => exists o; destruct (net env n o) end;
    reflexivity.
Qed.

Lemma executeRequest_trace r st :
  exists o tail,
    log (fst (executeRequest c env r st))
    = log st ++ EvExecute (r_path r) :: EvSend o :: tail /\ io_tail tail /\
    snd (executeRequest c env r st) <> Pending.
Proof.
  unfold executeRequest.
  match goal with |- context [send c env ?m ?req ?s] =>
    destruct (send_trace m req s) as [o Ho]; destruct (send c env m req s) as [st1 [res|err]]
  end; cbn [fst] in Ho; rewrite log_emit in Ho.
  - destruct (run_handler_trace (r_handler r) res st1) as (tail & Hl & Ht & Hp).
    exists o, tail. rewrite Hl, Ho, <- !app_assoc. simpl. auto.
  - exists o, []. simpl. rewrite Ho, <- app_assoc. simpl.
    repeat split; [now left | discriminate].
Qed.

(** In terms of the counters. *)
Lemma executeRequest_counts r st :
  let st' := fst (executeRequest c env r st) in
  callbacks (log st') = callbacks (log st) /\
  authentications (log st') = authentications (log st) /\
  (forall q, requeues q (log st') = requeues q (log st)) /\
  (forall q, executions q (log st')
             = executions q (log st) + (if (r_path r =? q)%string then 1 else 0)) /\
  snd (executeRequest c env r st) <> Pending.
Proof.
  destruct (executeRequest_trace r st) as (o & tail & Hl & Ht & Hp).
  simpl. rewrite Hl. unfold authentications, requeues, executions.
  rewrite callbacks_app, !count_app.
  destruct Ht as [->|(f & d & ->)]; simpl; rewrite ?app_nil_r;
    repeat split; auto; intros q; rewrite ?count_app; unfold count; simpl;
    destruct (r_path r =? q)%string; simpl; lia.
Qed.


(** *** The invariant of a submission *)

(** The first three links fire no callback, raise no retry flag and end
    in a settled promise. *)
Lemma attempt_ok submit r st :
  (forall r' st', depth r' < depth r ->
                  exists res, submit r' st' = Some res /\ run_ok r' st' res) ->
  exists st1 p1,
    attempt c env submit r st = Some (st1, p1) /\
    p1 <> Pending /\
    callbacks (log st1) = callbacks (log st) /\
    requeues (r_path r) (log st1) = requeues (r_path r) (log st) /\
    (r_path r = "/oauth2/token" -> endpoint_only st st1).
Proof.
  intros Hsub. unfold attempt, gate_catch_authenticate.
  destruct (checkAuthentication r st) eqn:G.
  - simpl. destruct (executeRequest_counts r st) as (Hc & Ha & Hr & He & Hp).
    destruct (executeRequest c env r st) as [st1 p1]. simpl in *.
    exists st1, p1. split; [reflexivity|]. split; [exact Hp|]. split; [exact Hc|].
    split; [apply Hr|]. intros Hpath. split; [exact Ha|]. intros q Hq. split; [|apply Hr].
    rewrite He, Hpath. destruct (String.eqb_spec "/oauth2/token" q); [congruence | lia].
  - assert (Hpath : r_path r <> "/oauth2/token").
    { unfold checkAuthentication in G. apply orb_false_iff in G.
      destruct G as [_ G]. now apply String.eqb_neq. }
    unfold authenticate.
    destruct (Hsub (auth_descriptor c false) (emit EvAuthenticate st))
      as ([[ra sta] pa] & -> & Hok).
    { rewrite depth_auth_descriptor. eauto using gate_closed_depth. }
    destruct Hok as (_ & _ & _ & Hcb & _ & Hauth). simpl in Hcb.
    destruct Hcb as (_ & Hcb & Hpa).
    destruct (Hauth eq_refl) as (_ & Hq). destruct (Hq _ Hpath) as (_ & Hrq).
    rewrite ?log_emit, callbacks_app in Hcb. simpl in Hcb. rewrite app_nil_r in Hcb.
    rewrite log_emit in Hrq. unfold requeues in Hrq. rewrite count_app in Hrq.
    unfold count at 3 in Hrq. simpl in Hrq. rewrite Nat.add_0_r in Hrq.
    fold (requeues (r_path r)) in Hrq.
    destruct pa as [v|e|]; [| |contradiction].
    + simpl. destruct (executeRequest_counts r sta) as (Hc & Ha & Hr & He & Hp).
      destruct (executeRequest c env r sta) as [st1 p1]. simpl in *.
      exists st1, p1. split; [reflexivity|]. split; [exact Hp|].
      split; [congruence|]. split; [rewrite Hr; exact Hrq|]. intros E. contradiction.
    + simpl. exists sta, (Rejected e). split; [reflexivity|]. split; [discriminate|].
      split; [exact Hcb|]. split; [exact Hrq|]. intros E. contradiction.
Qed.


Lemma count_emit f e st :
  count f (log (emit e st)) = count f (log st) + (if f e then 1 else 0).
Proof.
  rewrite log_emit, count_app. unfold count at 2. simpl. now destruct (f e).
Qed.

Lemma callbacks_emit e st :
  callbacks (log (emit e st))
  = callbacks (log st) ++ match e with EvCallback _ args => [args] | _ => [] end.
Proof. rewrite log_emit, callbacks_app. simpl. now rewrite app_nil_r. Qed.

Lemma settle_twice r st p :
  let '(r1, st1, p1) := then_settle r st p in
  then_settle r1 st1 p1 = (r1, st1, p1).
Proof.
  destruct p as [v|e|]; simpl; unfold resolveRequest, rejectRequest;
    destruct (r_callback r) eqn:C, (r_callbackExecuted r) eqn:E; simpl;
    unfold resolveRequest, rejectRequest; simpl; rewrite ?C, ?E; reflexivity.
Qed.

Lemma endpoint_only_callback st st1 path args :
  endpoint_only st st1 -> endpoint_only st (emit (EvCallback path args) st1).
Proof.
  unfold endpoint_only, authentications, executions, requeues.
  intros (Ha & Hq). split.
  - rewrite count_emit. cbn [is_authenticate]. lia.
  - intros q Hne. rewrite !count_emit. cbn [is_execute is_requeue].
    destruct (Hq q Hne). lia.
Qed.

Lemma requeues_callback q st path args :
  requeues q (log (emit (EvCallback path args) st)) = requeues q (log st).
Proof. unfold requeues. rewrite count_emit. simpl. lia. Qed.

Lemma chain_ok submit r st :
  (forall r' st', depth r' < depth r ->
                  exists res, submit r' st' = Some res /\ run_ok r' st' res) ->
  exists res, chain c env submit r st = Some res /\ run_ok r st res.
Proof.
  intros Hsub.
  destruct (attempt_ok submit r st Hsub)
    as (st1 & p1 & Hatt & Hp1 & Hcb1 & Hrq1 & Hauth1).
  unfold chain. rewrite Hatt.
  assert (Hno : r_retry r && negb (r_retry r) = false) by now destruct (r_retry r).
  destruct p1 as [v|e|]; [ | |contradiction]; cbn [catch_requeue].
  - (* the attempt succeeded *)
    eexists. split; [reflexivity|].
    cbn [then_settle]. unfold resolveRequest, run_ok.
    destruct (r_callback r && negb (r_callbackExecuted r)) eqn:CB; cbn [r_callback
      r_path r_retry r_callbackExecuted set_callbackExecuted];
      rewrite ?callbacks_emit, ?requeues_callback, Hno, Nat.add_0_r;
      (split; [reflexivity|]); (split; [reflexivity|]); (split; [auto|]).
    + split; [|split; [exact Hrq1 | auto using endpoint_only_callback]].
      split; [reflexivity|]. left. exists v. now rewrite Hcb1.
    + split; [|split; [exact Hrq1 | exact Hauth1]].
      split; [reflexivity|]. split; [exact Hcb1 | discriminate].
  - unfold decideWhetherToRequeue.
    destruct ((indexOf (Error_toString e) "401" >? -1)%Z && negb (r_retry r)) eqn:D.
    + (* retried *)
      apply andb_true_iff in D. destruct D as [_ D]. apply negb_true_iff in D.
      destruct (Hsub (set_retry r) (emit (EvRequeue (r_path r)) st1))
        as ([[r2 st2] p2] & -> & Hok); [now apply depth_set_retry|].
      eexists. split; [reflexivity|].
      destruct Hok as (Hc2 & Hp2 & Hr2 & Hcb2 & Hrq2 & Hauth2).
      cbn [r_callback r_path r_retry r_callbackExecuted set_retry] in *.
      specialize (Hr2 eq_refl).
      rewrite callbacks_emit, Hcb1, app_nil_r in Hcb2.
      unfold requeues in Hrq2. rewrite count_emit in Hrq2.
      cbn [is_requeue] in Hrq2. rewrite String.eqb_refl, Hr2 in Hrq2.
      fold (requeues (r_path r)) in Hrq2. simpl in Hrq2.
      assert (Hfinal : run_ok r st (r2, st2, p2)).
      { unfold run_ok. rewrite Hr2, D. simpl.
        split; [exact Hc2|]. split; [exact Hp2|]. split; [auto|].
        split; [exact Hcb2|]. split; [lia|].
        intros Hpath. destruct (Hauth1 Hpath) as (Ha1 & Hq1).
        destruct (Hauth2 Hpath) as (Ha2 & Hq2).
        unfold endpoint_only, authentications in *. rewrite count_emit in Ha2. simpl in Ha2.
        split; [lia|]. intros q Hq. destruct (Hq1 q Hq) as (He1 & Hr1).
        destruct (Hq2 q Hq) as (He2 & Hr2').
        unfold executions, requeues in *. rewrite count_emit in He2, Hr2'.
        cbn [is_execute is_requeue] in He2, Hr2'. rewrite Hpath in Hr2'.
        destruct (String.eqb_spec "/oauth2/token" q); [congruence|]. lia. }
      destruct (r_callback r && negb (r_callbackExecuted r)) eqn:CB.
      * destruct Hcb2 as (Hex & [(v & -> & Hv)|(e2 & -> & He2)]); cbn [then_settle];
          [|exact Hfinal].
        unfold resolveRequest. rewrite Hex, andb_false_r. exact Hfinal.
      * destruct Hcb2 as (Hex & Hv & Hpend).
        destruct p2 as [v|e2|]; [| |contradiction]; cbn [then_settle];
          unfold resolveRequest, rejectRequest; rewrite Hc2, Hex, CB; exact Hfinal.
    + (* terminal *)
      eexists. split; [reflexivity|].
      cbn [then_settle]. unfold rejectRequest, run_ok.
      destruct (r_callback r && negb (r_callbackExecuted r)) eqn:CB; cbn [r_callback
        r_path r_retry r_callbackExecuted set_callbackExecuted];
        rewrite ?callbacks_emit, ?requeues_callback, Hno, Nat.add_0_r;
        (split; [reflexivity|]); (split; [reflexivity|]); (split; [auto|]).
      * split; [|split; [exact Hrq1 | auto using endpoint_only_callback]].
        split; [reflexivity|]. right. exists e. now rewrite Hcb1.
      * split; [|split; [exact Hrq1 | exact Hauth1]].
        split; [reflexivity|]. split; [exact Hcb1 | discriminate].
Qed.

(** Every submission with enough fuel returns, and satisfies the invariant. *)
Lemma criteoApiRequest_ok fuel r st :
  depth r < fuel ->
  exists res, criteoApiRequest c env fuel r st = Some res /\ run_ok r st res.
Proof. apply criteoApiRequest_spec. exact chain_ok. Qed.


(** *** The shape of a run *)

(** [executeRequest] reads neither flag of the descriptor. *)
Lemma executeRequest_set_retry r st :
  executeRequest c env (set_retry r) st = executeRequest c env r st.
Proof. reflexivity. Qed.

Lemma attempt_run fuel r st :
  depth r <= fuel ->
  exists st1 p1,
    attempt c env (criteoApiRequest c env fuel) r st = Some (st1, p1) /\
    p1 <> Pending /\
    callbacks (log st1) = callbacks (log st) /\
    requeues (r_path r) (log st1) = requeues (r_path r) (log st) /\
    (r_path r = "/oauth2/token" -> endpoint_only st st1).
Proof.
  intros Hd. apply attempt_ok. intros r' st' Hd'. apply criteoApiRequest_ok. lia.
Qed.

(** A descriptor already marked is not resubmitted: the chain is one
    attempt and the settlement. *)
Lemma chain_retried submit r st :
  r_retry r = true ->
  chain c env submit r st
  = match attempt c env submit r st with
    | Some (st1, p1) => Some (then_settle r st1 p1)
    | None => None
    end.
Proof.
  intros Hr. unfold chain. destruct (attempt c env submit r st) as [[st1 [v|e|]]|]; auto.
  simpl. unfold decideWhetherToRequeue. now rewrite Hr, andb_false_r.
Qed.

(** Marked for a retry, a descriptor of another path than the token
    endpoint does not pass the gate: its attempt authenticates first. *)
Lemma attempt_retried submit r st :
  r_retry r = true -> r_path r <> "/oauth2/token" ->
  attempt c env submit r st
  = match authenticate c submit false st with
    | Some (st2, p2) => Some (then_execute c env r st2 p2)
    | None => None
    end.
Proof.
  intros Hr Hp. unfold attempt, gate_catch_authenticate, checkAuthentication.
  apply String.eqb_neq in Hp. now rewrite Hr, Hp, andb_false_r.
Qed.

(** [authenticate] with enough fuel: it is entered once, ends settled,
    and leaves the other paths alone. *)
Lemma authenticate_run fuel st :
  2 <= fuel ->
  exists st2 p2,
    authenticate c (criteoApiRequest c env fuel) false st = Some (st2, p2) /\
    p2 <> Pending /\
    callbacks (log st2) = callbacks (log st) /\
    authentications (log st2) = authentications (log st) + 1 /\
    forall q, q <> "/oauth2/token" ->
              executions q (log st2) = executions q (log st) /\
              requeues q (log st2) = requeues q (log st).
Proof.
  intros Hf. unfold authenticate.
  destruct (criteoApiRequest_ok fuel (auth_descriptor c false) (emit EvAuthenticate st))
    as ([[ra sta] pa] & -> & Hok); [rewrite depth_auth_descriptor; lia|].
  destruct Hok as (_ & _ & _ & Hcb & _ & Hauth). simpl in Hcb.
  destruct Hcb as (_ & Hcb & Hpa). destruct (Hauth eq_refl) as (Ha & Hq).
  exists sta, pa. split; [reflexivity|]. split; [exact Hpa|].
  rewrite ?log_emit, callbacks_app in Hcb. simpl in Hcb. rewrite app_nil_r in Hcb.
  split; [exact Hcb|]. unfold authentications in *. rewrite count_emit in Ha.
  split; [exact Ha|]. intros q Hne. destruct (Hq q Hne) as (He & Hr).
  unfold executions, requeues in *. rewrite count_emit in He, Hr.
  cbn [is_execute is_requeue] in He, Hr. lia.
Qed.


Lemma depth_set_retry_le r : depth (set_retry r) <= 2.
Proof. unfold depth. simpl. destruct (_ =? _)%string; lia. Qed.

Lemma then_settle_promise r st p :
  snd (then_settle r st p)
  = match p with
    | Fulfilled v => Fulfilled v
    | Rejected e => if r_callback r && negb (r_callbackExecuted r) then Pending else Rejected e
    | Pending => Pending
    end.
Proof.
  destruct p; simpl; unfold resolveRequest, rejectRequest;
    now destruct (r_callback r && negb (r_callbackExecuted r)).
Qed.

(** The submission of a fresh descriptor, spelled out: one attempt, and
    after a failure that reads as a 401 one more. *)
Lemma criteoApiRequest_unfold k r st :
  exists st1 p1,
    attempt c env (criteoApiRequest c env (3 + k)) r st = Some (st1, p1) /\
    p1 <> Pending /\
    criteoApiRequest c env (4 + k) r st
    = match p1 with
      | Rejected e =>
          if (indexOf (Error_toString e) "401" >? -1)%Z && negb (r_retry r) then
            match attempt c env (criteoApiRequest c env (2 + k)) (set_retry r)
                          (emit (EvRequeue (r_path r)) st1) with
            | Some (st2, p2) => Some (then_settle (set_retry r) st2 p2)
            | None => None
            end
          else Some (then_settle r st1 p1)
      | _ => Some (then_settle r st1 p1)
      end.
Proof.
  destruct (attempt_run (3 + k) r st) as (st1 & p1 & Hatt & Hp1 & _);
    [pose proof (depth_le_3 r); lia|].
  exists st1, p1. split; [exact Hatt|]. split; [exact Hp1|].
  change (criteoApiRequest c env (4 + k) r st)
    with (chain c env (criteoApiRequest c env (3 + k)) r st).
  unfold chain. rewrite Hatt.
  destruct p1 as [v|e|]; try reflexivity. cbn [catch_requeue]. unfold decideWhetherToRequeue.
  destruct (_ && negb (r_retry r)) eqn:D; [|reflexivity].
  change (criteoApiRequest c env (3 + k) (set_retry r) (emit (EvRequeue (r_path r)) st1))
    with (chain c env (criteoApiRequest c env (2 + k)) (set_retry r)
                (emit (EvRequeue (r_path r)) st1)).
  rewrite chain_retried by reflexivity.
  destruct (attempt c env _ (set_retry r) _) as [[st2 p2]|]; [|reflexivity].
  pose proof (settle_twice (set_retry r) st2 p2) as Ht.
  destruct (then_settle (set_retry r) st2 p2) as [[r3 st3] p3]. now rewrite Ht.
Qed.


(** The settlement adds callback events only, and keeps the retry flag. *)
Lemma then_settle_counts r st p :
  let '(r', st', _) := then_settle r st p in
  r_retry r' = r_retry r /\
  authentications (log st') = authentications (log st) /\
  forall q, executions q (log st') = executions q (log st) /\
            requeues q (log st') = requeues q (log st).
Proof.
  destruct p as [v|e|]; cbn [then_settle]; unfold resolveRequest, rejectRequest;
    destruct (r_callback r && negb (r_callbackExecuted r));
    (split; [reflexivity|]);
    (split; [unfold authentications; rewrite ?count_emit; cbn [is_authenticate]; lia|]);
    intros q; unfold executions, requeues; rewrite ?count_emit;
    cbn [is_execute is_requeue]; lia.
Qed.

(** The status error of a 401 reads as an authentication failure. *)
Lemma bad_response_401 res :
  statusCode res = 401%N ->
  (indexOf (Error_toString (bad_response res)) "401" >? -1)%Z = true.
Proof.
  intros H. unfold bad_response. rewrite H. reflexivity.
Qed.

(** A fulfilled attempt carries what [executeRequest], that is the
    handler of the descriptor, produced. *)
Lemma attempt_fulfilled submit r st st1 v :
  attempt c env submit r st = Some (st1, Fulfilled v) ->
  exists st0, executeRequest c env r st0 = (st1, Fulfilled v).
Proof.
  unfold attempt. destruct (gate_catch_authenticate c submit r st) as [[st0 p0]|];
    [|discriminate].
  destruct p0 as [v0|e0|]; cbn [then_execute]; [|discriminate..].
  intros [= H]. now exists st0.
Qed.

(** The settlement of an outcome: what the promise becomes and what the
    callback is called with, if one waits. *)
Lemma then_settle_delivers r st p0 :
  let waiting := r_callback r && negb (r_callbackExecuted r) in
  let '(r', st', p) := then_settle r st p0 in
  (p0 <> Pending -> r_callbackExecuted r' = r_callbackExecuted r || r_callback r) /\
  match p0 with
  | Fulfilled v =>
      p = Fulfilled v /\
      callbacks (log st') = callbacks (log st) ++ (if waiting then [CbResult v] else [])
  | Rejected e =>
      p = (if waiting then Pending else Rejected e) /\
      callbacks (log st') = callbacks (log st) ++ (if waiting then [CbError e] else [])
  | Pending => p = Pending /\ callbacks (log st') = callbacks (log st)
  end.
Proof.
  cbv zeta.
  destruct p0 as [v|e|]; cbn [then_settle]; unfold resolveRequest, rejectRequest;
    destruct (r_callback r) eqn:C, (r_callbackExecuted r) eqn:E; cbn [andb negb orb];
    cbn [set_callbackExecuted r_callbackExecuted]; rewrite ?callbacks_emit, ?app_nil_r;
    rewrite ?C, ?E; repeat split; intros H; now try (exfalso; apply H).
Qed.

(** The outcome that is settled: the one of the first attempt, or after
    a resubmission the one of the second, with the callback flags of the
    descriptor as they were at the start. *)
Lemma settled_outcome k r st :
  let waiting := r_callback r && negb (r_callbackExecuted r) in
  exists st1 p1 r' st' p,
    attempt c env (criteoApiRequest c env (3 + k)) r st = Some (st1, p1) /\
    criteoApiRequest c env (4 + k) r st = Some (r', st', p) /\
    r_callbackExecuted r' = r_callbackExecuted r || r_callback r /\
    let settled (final : promise) :=
      match final with
      | Fulfilled v =>
          p = Fulfilled v /\
          callbacks (log st') = callbacks (log st) ++ (if waiting then [CbResult v] else [])
      | Rejected e =>
          p = (if waiting then Pending else Rejected e) /\
          callbacks (log st') = callbacks (log st) ++ (if waiting then [CbError e] else [])
      | Pending => False
      end in
    match p1 with
    | Rejected e =>
        if (indexOf (Error_toString e) "401" >? -1)%Z && negb (r_retry r) then
          exists st2 p2,
            attempt c env (criteoApiRequest c env (2 + k)) (set_retry r)
                    (emit (EvRequeue (r_path r)) st1) = Some (st2, p2) /\
            settled p2
        else settled p1
    | _ => settled p1
    end.
Proof.
  intros waiting.
  destruct (criteoApiRequest_unfold k r st) as (st1 & p1 & Hatt & Hp1 & Hrun).
  destruct (attempt_run (3 + k) r st) as (st1' & p1' & Hatt' & _ & Hcb1 & _);
    [pose proof (depth_le_3 r); lia|].
  rewrite Hatt in Hatt'. injection Hatt' as <- <-.
  assert (Hone : forall r0 st0 p0,
             r_callback r0 = r_callback r -> r_callbackExecuted r0 = r_callbackExecuted r ->
             callbacks (log st0) = callbacks (log st) -> p0 <> Pending ->
             let '(r', st', p) := then_settle r0 st0 p0 in
             r_callbackExecuted r' = r_callbackExecuted r || r_callback r /\
             match p0 with
             | Fulfilled v =>
                 p = Fulfilled v /\
                 callbacks (log st')
                 = callbacks (log st) ++ (if waiting then [CbResult v] else [])
             | Rejected e =>
                 p = (if waiting then Pending else Rejected e) /\
                 callbacks (log st')
                 = callbacks (log st) ++ (if waiting then [CbError e] else [])
             | Pending => False
             end).
  { intros r0 st0 p0 Hc He Hl Hp. pose proof (then_settle_delivers r0 st0 p0) as H.
    cbv zeta in H. rewrite Hc, He, Hl in H. fold waiting in H.
    destruct (then_settle r0 st0 p0) as [[r' st'] p]. destruct H as [H1 H2].
    split; [exact (H1 Hp)|]. destruct p0; [exact H2 | exact H2 | contradiction]. }
  exists st1, p1.
  destruct p1 as [v|e|]; [| |contradiction]; cbv beta iota in Hrun.
  - pose proof (Hone r st1 (Fulfilled v) eq_refl eq_refl Hcb1 Hp1) as H.
    destruct (then_settle r st1 (Fulfilled v)) as [[r' st'] p].
    exists r', st', p. split; [exact Hatt|]. split; [exact Hrun|]. exact H.
  - destruct ((indexOf (Error_toString e) "401" >? -1)%Z && negb (r_retry r)) eqn:D.
    + destruct (attempt_run (2 + k) (set_retry r) (emit (EvRequeue (r_path r)) st1))
        as (st2 & p2 & Hatt2 & Hp2 & Hcb2 & _); [pose proof (depth_set_retry_le r); lia|].
      rewrite Hatt2 in Hrun. rewrite callbacks_emit, app_nil_r, Hcb1 in Hcb2.
      pose proof (Hone (set_retry r) st2 p2 eq_refl eq_refl Hcb2 Hp2) as H.
      destruct (then_settle (set_retry r) st2 p2) as [[r' st'] p].
      exists r', st', p. split; [exact Hatt|]. split; [exact Hrun|].
      split; [exact (proj1 H)|]. exists st2, p2. split; [exact Hatt2 | exact (proj2 H)].
    + pose proof (Hone r st1 (Rejected e) eq_refl eq_refl Hcb1 Hp1) as H.
      destruct (then_settle r st1 (Rejected e)) as [[r' st'] p].
      exists r', st', p. split; [exact Hatt|]. split; [exact Hrun|]. exact H.
Qed.

(** C4.  A descriptor that carries a callback which has not fired: over
    the whole run, retry included, the callback is invoked exactly once,
    and what it is called with is the outcome that is settled, the one of
    the first attempt or, after a resubmission, the one of the second.
    When that attempt succeeds the callback is called with [(null, res)],
    [res] being the value the handler of the descriptor produced; when it
    fails the callback is called with the error of that failure; never
    with both, and with nothing else. *)
Theorem callback_fires_exactly_once k r st :
  r_callback r = true ->
  r_callbackExecuted r = false ->
  exists st1 p1 r' st' p,
    attempt c env (criteoApiRequest c env (3 + k)) r st = Some (st1, p1) /\
    criteoApiRequest c env (4 + k) r st = Some (r', st', p) /\
    r_callbackExecuted r' = true /\
    let called (final : promise) :=
      match final with
      | Fulfilled v =>
          callbacks (log st') = callbacks (log st) ++ [CbResult v] /\
          exists st0 st3, executeRequest c env r st0 = (st3, Fulfilled v)
      | Rejected e => callbacks (log st') = callbacks (log st) ++ [CbError e]
      | Pending => False
      end in
    match p1 with
    | Rejected e =>
        if (indexOf (Error_toString e) "401" >? -1)%Z && negb (r_retry r) then
          exists st2 p2,
            attempt c env (criteoApiRequest c env (2 + k)) (set_retry r)
                    (emit (EvRequeue (r_path r)) st1) = Some (st2, p2) /\
            called p2
        else called p1
    | _ => called p1
    end.
Proof.
  intros Hcb Hex.
  destruct (settled_outcome k r st) as (st1 & p1 & r' & st' & p & Hatt & Hrun & Hfl & H).
  cbv zeta in H. rewrite Hcb, Hex in H, Hfl. cbn [andb negb orb] in H, Hfl.
  exists st1, p1, r', st', p. split; [exact Hatt|]. split; [exact Hrun|].
  split; [exact Hfl|]. cbv zeta.
  destruct p1 as [v|e|]; [| |exact H].
  - destruct H as [_ H]. split; [exact H|].
    destruct (attempt_fulfilled _ _ _ _ _ Hatt) as (st0 & H0). eauto.
  - destruct ((indexOf (Error_toString e) "401" >? -1)%Z && negb (r_retry r));
      [|exact (proj2 H)].
    destruct H as (st2 & p2 & Hatt2 & H). exists st2, p2. split; [exact Hatt2|].
    destruct p2 as [v2|e2|]; [|exact (proj2 H) | exact H].
    destruct H as [_ H]. split; [exact H|].
    destruct (attempt_fulfilled _ _ _ _ _ Hatt2) as (st0 & H0).
    rewrite executeRequest_set_retry in H0. eauto.
Qed.

(** C5, amended.  The promise returned for a submission, by the outcome
    that is settled, the one of the first attempt or, after a
    resubmission, the one of the second.  When that attempt succeeds the
    promise is fulfilled with the value the handler produced, whether a
    callback waits or not.  When it fails and no callback waits (none was
    supplied, or it has fired) the promise is rejected with the error of
    that failure and no callback is called.  When it fails and a callback
    waits, that error is handed to the callback, in one call and no
    other, and the promise is never settled. *)
Theorem promise_settlement k r st :
  let waiting := r_callback r && negb (r_callbackExecuted r) in
  exists st1 p1 r' st' p,
    attempt c env (criteoApiRequest c env (3 + k)) r st = Some (st1, p1) /\
    criteoApiRequest c env (4 + k) r st = Some (r', st', p) /\
    let settled (final : promise) :=
      match final with
      | Fulfilled v =>
          p = Fulfilled v /\
          callbacks (log st') = callbacks (log st) ++ (if waiting then [CbResult v] else [])
      | Rejected e =>
          if waiting
          then p = Pending /\ callbacks (log st') = callbacks (log st) ++ [CbError e]
          else p = Rejected e /\ callbacks (log st') = callbacks (log st)
      | Pending => False
      end in
    match p1 with
    | Rejected e =>
        if (indexOf (Error_toString e) "401" >? -1)%Z && negb (r_retry r) then
          exists st2 p2,
            attempt c env (criteoApiRequest c env (2 + k)) (set_retry r)
                    (emit (EvRequeue (r_path r)) st1) = Some (st2, p2) /\
            settled p2
        else settled p1
    | _ => settled p1
    end /\
    (forall v, p = Fulfilled v ->
               exists st0 st3, executeRequest c env r st0 = (st3, Fulfilled v)) /\
    (waiting = false -> p <> Pending) /\
    (p = Pending -> exists e, callbacks (log st') = callbacks (log st) ++ [CbError e]).
Proof.
  intros waiting.
  destruct (settled_outcome k r st) as (st1 & p1 & r' & st' & p & Hatt & Hrun & _ & H).
  cbv zeta in H. fold waiting in H.
  exists st1, p1, r', st', p. split; [exact Hatt|]. split; [exact Hrun|]. cbv zeta.
  assert (Hshape : forall final,
             match final with
             | Fulfilled v =>
                 p = Fulfilled v /\
                 callbacks (log st')
                 = callbacks (log st) ++ (if waiting then [CbResult v] else [])
             | Rejected e =>
                 p = (if waiting then Pending else Rejected e) /\
                 callbacks (log st')
                 = callbacks (log st) ++ (if waiting then [CbError e] else [])
             | Pending => False
             end ->
             match final with
             | Fulfilled v =>
                 p = Fulfilled v /\
                 callbacks (log st')
                 = callbacks (log st) ++ (if waiting then [CbResult v] else [])
             | Rejected e =>
                 if waiting
                 then p = Pending /\ callbacks (log st') = callbacks (log st) ++ [CbError e]
                 else p = Rejected e /\ callbacks (log st') = callbacks (log st)
             | Pending => False
             end).
  { intros [v|e|]; auto. destruct waiting; rewrite ?app_nil_r; auto. }
  assert (Hall : forall final submit r0 st0 st3,
             attempt c env submit r0 st0 = Some (st3, final) ->
             executeRequest c env r0 = executeRequest c env r ->
             match final with
             | Fulfilled v =>
                 p = Fulfilled v /\
                 callbacks (log st')
                 = callbacks (log st) ++ (if waiting then [CbResult v] else [])
             | Rejected e =>
                 p = (if waiting then Pending else Rejected e) /\
                 callbacks (log st')
                 = callbacks (log st) ++ (if waiting then [CbError e] else [])
             | Pending => False
             end ->
             (forall v, p = Fulfilled v ->
                        exists st0 st3, executeRequest c env r st0 = (st3, Fulfilled v)) /\
             (waiting = false -> p <> Pending) /\
             (p = Pending ->
              exists e, callbacks (log st') = callbacks (log st) ++ [CbError e])).
  { intros [v|e|] submit r0 st0 st3 Ha Hsame Hf; [| |contradiction].
    - destruct Hf as [-> _]. split; [|split; [discriminate | discriminate]].
      intros v' [= <-]. destruct (attempt_fulfilled _ _ _ _ _ Ha) as (st4 & H4).
      rewrite Hsame in H4. eauto.
    - destruct Hf as [-> Hc]. destruct waiting.
      + split; [discriminate|]. split; [discriminate | eauto].
      + split; [discriminate|]. split; [discriminate | discriminate]. }
  destruct p1 as [v|e|]; [| |contradiction].
  - split; [exact (Hshape (Fulfilled v) H)|].
    exact (Hall (Fulfilled v) _ _ _ _ Hatt eq_refl H).
  - destruct ((indexOf (Error_toString e) "401" >? -1)%Z && negb (r_retry r)).
    + destruct H as (st2 & p2 & Hatt2 & H).
      split; [exists st2, p2; split; [exact Hatt2 | exact (Hshape p2 H)]|].
      exact (Hall p2 _ _ _ _ Hatt2 eq_refl H).
    + split; [exact (Hshape (Rejected e) H)|].
      exact (Hall (Rejected e) _ _ _ _ Hatt eq_refl H).
Qed.

(** A descriptor of a path other than the token endpoint, not yet
    retried, whose first attempt ends in the status error of a 401. *)
Lemma after_first_401 k r st st1 res :
  r_path r <> "/oauth2/token" ->
  r_retry r = false ->
  statusCode res = 401%N ->
  attempt c env (criteoApiRequest c env (3 + k)) r st
  = Some (st1, Rejected (bad_response res)) ->
  exists st2 p2 r' st' p,
    authenticate c (criteoApiRequest c env (2 + k)) false
                 (emit (EvRequeue (r_path r)) st1) = Some (st2, p2) /\
    criteoApiRequest c env (4 + k) r st = Some (r', st', p) /\
    r_retry r' = true /\
    requeues (r_path r) (log st') = requeues (r_path r) (log st) + 1 /\
    authentications (log st') = authentications (log st1) + 1 /\
    match p2 with
    | Fulfilled _ =>
        executions (r_path r) (log st') = executions (r_path r) (log st1) + 1 /\
        (r', st', p)
        = (let '(st3, p3) := executeRequest c env r st2 in
           then_settle (set_retry r) st3 p3)
    | Rejected e =>
        executions (r_path r) (log st') = executions (r_path r) (log st1) /\
        (r', st', p) = then_settle (set_retry r) st2 (Rejected e)
    | Pending => False
    end.
Proof.
  intros Hpath Hretry H401 Hatt.
  destruct (criteoApiRequest_unfold k r st) as (st1' & p1 & Hatt' & _ & Hrun).
  rewrite Hatt in Hatt'. injection Hatt' as <- <-.
  rewrite (bad_response_401 res H401), Hretry in Hrun. cbn [negb andb] in Hrun.
  destruct (attempt_run (3 + k) r st) as (st1' & p1 & Hatt' & _ & _ & Hrq1 & _);
    [pose proof (depth_le_3 r); lia|].
  rewrite Hatt in Hatt'. injection Hatt' as <- <-.
  rewrite attempt_retried in Hrun by (reflexivity || exact Hpath).
  destruct (authenticate_run (2 + k) (emit (EvRequeue (r_path r)) st1))
    as (st2 & p2 & Hauth & Hp2 & _ & Ha2 & Hq2); [lia|].
  rewrite Hauth in Hrun. destruct (Hq2 _ Hpath) as (He2 & Hr2).
  unfold authentications, executions, requeues in Ha2, He2, Hr2.
  rewrite count_emit in Ha2, He2, Hr2. cbn [is_authenticate is_execute is_requeue] in *.
  rewrite String.eqb_refl in Hr2.
  fold authentications in Ha2. fold (executions (r_path r)) in He2.
  fold (requeues (r_path r)) in Hr2.
  exists st2, p2.
  destruct p2 as [v|e|]; [| |contradiction]; cbn [then_execute] in Hrun.
  - rewrite executeRequest_set_retry in Hrun.
    destruct (executeRequest_counts r st2) as (_ & Ha3 & Hr3 & He3 & _).
    destruct (executeRequest c env r st2) as [st3 p3]. cbn [fst snd] in *.
    pose proof (then_settle_counts (set_retry r) st3 p3) as Hs.
    destruct (then_settle (set_retry r) st3 p3) as [[r' st'] p].
    destruct Hs as (Hfl & Ha4 & Hq4). destruct (Hq4 (r_path r)) as (He4 & Hr4).
    exists r', st', p. split; [exact Hauth|]. split; [exact Hrun|].
    split; [exact Hfl|]. rewrite Hr4, Hr3, Ha4, Ha3, He4, He3, String.eqb_refl.
    repeat split; lia.
  - pose proof (then_settle_counts (set_retry r) st2 (Rejected e)) as Hs.
    destruct (then_settle (set_retry r) st2 (Rejected e)) as [[r' st'] p].
    destruct Hs as (Hfl & Ha4 & Hq4). destruct (Hq4 (r_path r)) as (He4 & Hr4).
    exists r', st', p. split; [exact Hauth|]. split; [exact Hrun|].
    split; [exact Hfl|]. rewrite Hr4, Ha4, He4.
    repeat split; lia.
Qed.

(** C9.  The gate passes exactly when a token is stored (a truthy one:
    for a string, a non-empty one) and the descriptor is not marked as a
    retry, or the path is the token endpoint; when it passes the chain
    goes on with the descriptor, and when it does not the chain enters
    [authenticate]. *)
Theorem authentication_gate (r : descriptor) (st : state) :
  (checkAuthentication r st = true
   <-> (truthy (token st) = true /\ r_retry r = false) \/ r_path r = "/oauth2/token") /\
  (forall s, token st = JString s ->
             (checkAuthentication r st = true
              <-> (s <> "" /\ r_retry r = false) \/ r_path r = "/oauth2/token")) /\
  (forall submit, checkAuthentication r st = true ->
                  gate_catch_authenticate c submit r st = Some (st, Fulfilled Undefined)) /\
  (forall submit, checkAuthentication r st = false ->
                  gate_catch_authenticate c submit r st = authenticate c submit false st).
Proof.
  assert (H : checkAuthentication r st = true
              <-> (truthy (token st) = true /\ r_retry r = false)
                  \/ r_path r = "/oauth2/token").
  { unfold checkAuthentication.
    rewrite orb_true_iff, andb_true_iff, negb_true_iff, String.eqb_eq. tauto. }
  split; [exact H|]. split; [|split].
  - intros s Hs. rewrite H, Hs. simpl. rewrite negb_true_iff, String.eqb_neq. tauto.
  - intros submit G. unfold gate_catch_authenticate. now rewrite G.
  - intros submit G. unfold gate_catch_authenticate. now rewrite G.
Qed.

(** C3, amended.  Over a whole call the retry flag of the descriptor is
    raised at most once, and never when it was already set.  When the
    descriptor has a path other than the token endpoint, was not retried
    and its first attempt ends in the status error of a 401: the flag is
    raised; [authenticate] is entered exactly once after the failure;
    when that re-authentication succeeds the request is executed exactly
    once more and the outcome of this execution, a second 401 included,
    is settled as it is, with no further retry; when it fails the
    request is not executed again and the error of the authentication is
    settled. *)
Theorem retried_at_most_once k r st :
  exists r' st' p,
    criteoApiRequest c env (4 + k) r st = Some (r', st', p) /\
    requeues (r_path r) (log st')
    = requeues (r_path r) (log st) + (if r_retry r' && negb (r_retry r) then 1 else 0) /\
    (r_retry r = true -> r_retry r' = true) /\
    forall st1 res,
      r_path r <> "/oauth2/token" ->
      r_retry r = false ->
      statusCode res = 401%N ->
      attempt c env (criteoApiRequest c env (3 + k)) r st
      = Some (st1, Rejected (bad_response res)) ->
      exists st2 p2,
        authenticate c (criteoApiRequest c env (2 + k)) false
                     (emit (EvRequeue (r_path r)) st1) = Some (st2, p2) /\
        r_retry r' = true /\
        authentications (log st') = authentications (log st1) + 1 /\
        match p2 with
        | Fulfilled _ =>
            executions (r_path r) (log st') = executions (r_path r) (log st1) + 1 /\
            (r', st', p)
            = (let '(st3, p3) := executeRequest c env r st2 in
               then_settle (set_retry r) st3 p3)
        | Rejected e =>
            executions (r_path r) (log st') = executions (r_path r) (log st1) /\
            (r', st', p) = then_settle (set_retry r) st2 (Rejected e)
        | Pending => False
        end.
Proof.
  destruct (criteoApiRequest_ok (4 + k) r st) as ([[r' st'] p] & Hrun & Hok);
    [pose proof (depth_le_3 r); lia|].
  destruct Hok as (_ & _ & Hflag & _ & Hrq & _).
  exists r', st', p. split; [exact Hrun|]. split; [exact Hrq|]. split; [exact Hflag|].
  intros st1 res Hpath Hretry H401 Hatt.
  destruct (after_first_401 k r st st1 res Hpath Hretry H401 Hatt)
    as (st2 & p2 & r2 & st2' & p' & Hauth & Hrun2 & Hr & _ & Ha & Hcase).
  rewrite Hrun in Hrun2. injection Hrun2 as <- <- <-.
  exists st2, p2. auto.
Qed.

End Pipeline.

(** ** The token after a failed authentication *)

Section Token.
Context {P : Platform}.
Variable c : client.
Variable env : environment.

Lemma run_handler_rejected_token h res st e :
  snd (run_handler env h res st) = Rejected e ->
  token (fst (run_handler env h res st)) = token st.
Proof.
  destruct h; simpl.
  - unfold processAuth.
    destruct (JSON_parse _) as [j|]; [destruct (get_access_token j)|]; simpl;
      try discriminate; reflexivity.
  - unfold processJSON, process, parseJSON.
    destruct (status_accepted res), (negb _); try destruct (JSON_parse _); reflexivity.
  - unfold processFile, process, saveToFile.
    destruct (status_accepted res), (writeFile_error _ _ _ _); reflexivity.
  - unfold processResponse, process, parseResponse.
    destruct (status_accepted res), (negb _); reflexivity.
Qed.

Lemma send_token m req st : token (fst (send c env m req st)) = token st.
Proof.
  destruct m; simpl; unfold request, apiGet, apiPost, apiPut, apiPatch, apiDelete,
    apiRequest, _request; simpl; unfold http_request;
    match goal with |- context [net env ?n ?o] => destruct (net env n o) end;
    reflexivity.
Qed.

Lemma executeRequest_rejected_token r st e :
  snd (executeRequest c env r st) = Rejected e ->
  token (fst (executeRequest c env r st)) = token st.
Proof.
  unfold executeRequest.
  match goal with |- context [send c env ?m ?req ?s] =>
    pose proof (send_token m req s) as Ht; destruct (send c env m req s) as [st1 [res|err]]
  end; cbn [fst] in Ht.
  - intros H. now rewrite (run_handler_rejected_token _ _ _ _ H).
  - intros _. exact Ht.
Qed.

Lemma then_settle_token r st p :
  token (snd (fst (then_settle r st p))) = token st /\
  (forall v, snd (then_settle r st p) = Fulfilled v -> p = Fulfilled v).
Proof.
  destruct p as [v|e|]; cbn [then_settle]; unfold resolveRequest, rejectRequest;
    destruct (r_callback r && negb (r_callbackExecuted r)); split;
    try reflexivity; cbn [snd]; intros v'; try discriminate; auto.
Qed.

Lemma chain_keeps_token submit r st :
  (forall r' st', depth r' < depth r ->
                  exists res, submit r' st' = Some res /\
                              run_ok r' st' res /\ failure_keeps_token r' st' res) ->
  exists res, chain c env submit r st = Some res /\
              run_ok r st res /\ failure_keeps_token r st res.
Proof.
  intros Hsub.
  destruct (chain_ok c env submit r st) as (res & Hres & Hok).
  { intros r' st' Hd. destruct (Hsub r' st' Hd) as (res & H1 & H2 & _). eauto. }
  exists res. split; [exact Hres|]. split; [exact Hok|].
  intros Hpath Hfail. revert Hres.
  unfold chain, attempt, gate_catch_authenticate, checkAuthentication.
  rewrite Hpath, String.eqb_refl, orb_true_r. cbn [then_execute].
  pose proof (executeRequest_rejected_token r st) as Hexec.
  destruct (executeRequest_counts c env r st) as (_ & _ & _ & _ & Hnp).
  destruct (executeRequest c env r st) as [st1 [v|e|]]; cbn [fst snd catch_requeue] in *;
    [| |contradiction].
  - intros [= <-]. exfalso. apply (Hfail v).
    cbn [then_settle]. unfold resolveRequest.
    now destruct (r_callback r && negb (r_callbackExecuted r)).
  - specialize (Hexec e eq_refl). unfold decideWhetherToRequeue.
    destruct (_ && negb (r_retry r)) eqn:D.
    + apply andb_true_iff in D. destruct D as [_ D]. apply negb_true_iff in D.
      destruct (Hsub (set_retry r) (emit (EvRequeue (r_path r)) st1))
        as ([[r2 st2] p2] & -> & _ & Hin); [now apply depth_set_retry|].
      intros [= <-].
      destruct (then_settle_token r2 st2 p2) as [Ht Hf]. rewrite Ht.
      unfold failure_keeps_token in Hin. cbn [fst snd set_retry r_path] in Hin.
      rewrite (Hin Hpath); [exact Hexec|].
      intros v2 ->. apply (Hfail v2). cbn [then_settle]. unfold resolveRequest.
      now destruct (r_callback r2 && negb (r_callbackExecuted r2)).
    + intros [= <-]. destruct (then_settle_token r st1 (Rejected e)) as [Ht _].
      cbn [then_settle] in Ht. now rewrite Ht.
Qed.

(** X14.  When [authenticate] does not end fulfilled, the token the
    client holds is as before: a failed token exchange, retried or not,
    does not touch it. *)
Lemma failed_authentication_keeps_token k st st' p :
  authenticate c (criteoApiRequest c env (2 + k)) false st = Some (st', p) ->
  (forall v, p <> Fulfilled v) ->
  token st' = token st.
Proof.
  unfold authenticate.
  destruct (criteoApiRequest_spec c env
              (fun r st res => run_ok r st res /\ failure_keeps_token r st res)
              chain_keeps_token (2 + k) (auth_descriptor c false) (emit EvAuthenticate st))
    as ([[ra sta] pa] & -> & _ & Hkeep); [rewrite depth_auth_descriptor; lia|].
  intros [= <- <-] Hp. exact (Hkeep eq_refl Hp).
Qed.

End Token.

(** ** Form data, white space and header maps *)

Lemma slice_0_m1_snoc (s : string) (x : ascii) :
  slice_0_m1 (s ++ String x "")%string = s.
Proof.
  induction s as [|y s IH]; [reflexivity|].
  simpl. destruct s as [|z s]; simpl in *; [reflexivity|]. now rewrite IH.
Qed.

Lemma toFormData_fold (kv : string * string) (obj : list (string * string)) (acc : string) :
  fold_left (fun formdata kv => formdata ++ fst kv ++ "=" ++ snd kv ++ "&")%string
            (kv :: obj) acc
  = (acc ++ String.concat "&" (map (fun kv => fst kv ++ "=" ++ snd kv) (kv :: obj))
         ++ "&")%string.
Proof.
  revert kv acc. induction obj as [|kv' obj IH]; intros kv acc.
  - simpl. now rewrite !JSONFacts.append_assoc.
  - change (fold_left ?f (kv :: kv' :: obj) acc)
      with (fold_left f (kv' :: obj) (f acc kv)).
    rewrite IH. cbn [map String.concat fst snd]. now rewrite !JSONFacts.append_assoc.
Qed.

Lemma toFormData_cons (kv : string * string) (obj : list (string * string)) :
  toFormData (kv :: obj)
  = String.concat "&" (map (fun kv => fst kv ++ "=" ++ snd kv)%string (kv :: obj)).
Proof.
  unfold toFormData. rewrite toFormData_fold. cbn [append].
  change (String.concat "&" ?l ++ "&")%string
    with (String.concat "&" l ++ String "&" "")%string.
  apply slice_0_m1_snoc.
Qed.

(** X1.  [toFormData] joins the pairs [key=value] of the object with
    ampersands, in enumeration order: the accumulation with a trailing
    ampersand and the final [slice(0, -1)] leave none at the end, and an
    empty object gives the empty string. *)
Theorem toFormData_join (obj : list (string * string)) :
  toFormData obj
  = String.concat "&" (map (fun kv => fst kv ++ "=" ++ snd kv)%string obj).
Proof. destruct obj as [|kv obj]; [reflexivity | apply toFormData_cons]. Qed.

Lemma trimEnd_idempotent (s : string) : trimEnd (trimEnd s) = trimEnd s.
Proof.
  induction s as [|x s IH]; [reflexivity|].
  simpl. destruct (trimEnd s) as [|y t] eqn:E.
  - destruct (is_white_space x) eqn:W; simpl; [reflexivity|]. now rewrite W.
  - change (trimEnd (String x (String y t)))
      with (match trimEnd (String y t) with
            | EmptyString => if is_white_space x then EmptyString else String x EmptyString
            | t' => String x t'
            end).
    now rewrite IH.
Qed.

Lemma trimStart_head (s : string) :
  match trimStart s with
  | String x _ => is_white_space x = false
  | EmptyString => True
  end.
Proof.
  induction s as [|x s IH]; simpl; [exact I|].
  destruct (is_white_space x) eqn:W; [exact IH | exact W].
Qed.

Lemma trimStart_trimEnd (s : string) :
  match s with String x _ => is_white_space x = false | EmptyString => True end ->
  trimStart (trimEnd s) = trimEnd s.
Proof.
  destruct s as [|x s]; [reflexivity|]. intros W. simpl.
  destruct (trimEnd s); rewrite ?W; simpl; now rewrite W.
Qed.

Lemma trim_idempotent (s : string) : trim (trim s) = trim s.
Proof.
  unfold trim. rewrite (trimStart_trimEnd (trimStart s) (trimStart_head s)).
  apply trimEnd_idempotent.
Qed.

Lemma obj_get_set_other {A} (o : list (string * A)) (k k' : string) (v : A) :
  k' <> k -> obj_get (obj_set o k' v) k = obj_get o k.
Proof.
  intros Hk. apply String.eqb_neq in Hk.
  induction o as [|[k0 v0] o IH]; simpl.
  - now rewrite Hk.
  - destruct (k0 =? k')%string eqn:E; simpl.
    + apply String.eqb_eq in E. subst k0. now rewrite Hk.
    + now rewrite IH.
Qed.





(** ** The handlers on an accepted status, and what a handler touches *)

Section HandlerEffects.
Context {P : Platform}.
Variable c : client.
Variable env : environment.

(** X3.  The raw handler on a response that passes the status test: the
    promise is fulfilled, never rejected, and the state is untouched.
    The value is [true] when the body is empty once trimmed, and
    otherwise the trimmed body, not the body as received: a string the
    handler yields is never empty and has no white space at either
    end. *)
Theorem processResponse_accepted (res : response) (st : state) :
  status_accepted res = true ->
  exists v,
    processResponse res st = (st, Fulfilled v) /\
    (trim (body res) = EmptyString -> v = JBool true) /\
    (trim (body res) <> EmptyString -> v = JString (trim (body res))) /\
    (forall s, v = JString s -> s <> EmptyString /\ trim s = s).
Proof.
  intros Hs. unfold processResponse. rewrite process_accepted by exact Hs.
  unfold parseResponse. destruct (String.eqb_spec (trim (body res)) "") as [E|E]; simpl.
  - exists (JBool true). repeat split; try congruence; discriminate.
  - exists (JString (trim (body res))). split; [reflexivity|].
    split; [contradiction|]. split; [reflexivity|].
    intros s [= <-]. split; [exact E | apply trim_idempotent].
Qed.


(** X5.  What a handler touches, whatever the response: only
    [processAuth] writes the token; only the file handler writes a file,
    and no other file than its own; and every handler leaves its promise
    settled. *)
Theorem run_handler_frame (h : handler) (res : response) (st : state) :
  let st' := fst (run_handler env h res st) in
  (h <> processAuth_bound -> token st' = token st) /\
  ((forall f, h <> processFile_bound f) -> files st' = files st) /\
  (forall q, h <> processFile_bound q -> obj_get (files st') q = obj_get (files st) q) /\
  snd (run_handler env h res st) <> Pending.
Proof.
  destruct h as [| |f|]; simpl.
  - unfold processAuth.
    destruct (JSON_parse _) as [j|]; [destruct (get_access_token j)|]; simpl;
      (split; [congruence|]); repeat split; discriminate.
  - unfold processJSON, process, parseJSON.
    destruct (status_accepted res), (negb _); try destruct (JSON_parse _); simpl;
      repeat split; discriminate.
  - unfold processFile, process, saveToFile.
    destruct (status_accepted res), (writeFile_error _ _ _ _); simpl;
      (split; [reflexivity|]); (split; [intros H; now destruct (H f)|]);
      (split; [|discriminate]); intros q Hq; try reflexivity;
      apply obj_get_set_other; congruence.
  - unfold processResponse, process, parseResponse.
    destruct (status_accepted res), (negb _); simpl; repeat split; discriminate.
Qed.

Lemma run_handler_token (h : handler) (res : response) (st : state) :
  h <> processAuth_bound -> token (fst (run_handler env h res st)) = token st.
Proof.
  destruct h as [| |f|]; simpl; intros Hh; [congruence| | |].
  - unfold processJSON, process, parseJSON.
    destruct (status_accepted res), (negb _); try destruct (JSON_parse _); reflexivity.
  - unfold processFile, process, saveToFile.
    destruct (status_accepted res), (writeFile_error _ _ _ _); reflexivity.
  - unfold processResponse, process, parseResponse.
    destruct (status_accepted res), (negb _); reflexivity.
Qed.

End HandlerEffects.

(** ** The choice of a handler *)

Ltac unit_cases x :=
  destruct x as [[] [] [] [] [] [] [] []]; vm_compute;
  (split; [intros H; first [discriminate H | auto]
          | intros [H|H]; first [discriminate H | reflexivity]]).

Lemma lower_j x : toLowerCase_unit x = "j"%char <-> x = "j"%char \/ x = "J"%char.
Proof. unit_cases x. Qed.
Lemma lower_s x : toLowerCase_unit x = "s"%char <-> x = "s"%char \/ x = "S"%char.
Proof. unit_cases x. Qed.
Lemma lower_o x : toLowerCase_unit x = "o"%char <-> x = "o"%char \/ x = "O"%char.
Proof. unit_cases x. Qed.
Lemma lower_n x : toLowerCase_unit x = "n"%char <-> x = "n"%char \/ x = "N"%char.
Proof. unit_cases x. Qed.

Lemma toLowerCase_json (format : string) :
  toLowerCase format = "json"%string
  <-> exists j s o n,
      format = String j (String s (String o (String n EmptyString))) /\
      (j = "j" \/ j = "J")%char /\ (s = "s" \/ s = "S")%char /\
      (o = "o" \/ o = "O")%char /\ (n = "n" \/ n = "N")%char.
Proof.
  split.
  - destruct format as [|j [|s [|o [|n [|]]]]]; simpl; try discriminate.
    intros [= Hj Hs Ho Hn]. exists j, s, o, n.
    rewrite <- lower_j, <- lower_s, <- lower_o, <- lower_n. auto.
  - intros (j & s & o & n & -> & Hj & Hs & Ho & Hn).
    apply lower_j in Hj. apply lower_s in Hs. apply lower_o in Ho. apply lower_n in Hn.
    simpl. now rewrite Hj, Hs, Ho, Hn.
Qed.

(** X6.  [determineStatsHandler] and [determineReportHandler].  A
    filepath that is not the empty string selects the file handler on
    that path in both, whatever the format, a missing one included.
    Without a filepath, or with the empty string, the report handler is
    the raw one; the statistics handler is the JSON one exactly when the
    format is the word json in any mix of upper and lower case, the raw
    one for any other format, and with no format at all the call throws. *)
Theorem handler_choice (format : option string) (filepath : option string) :
  (forall f, filepath = Some f -> f <> EmptyString ->
             determineStatsHandler format filepath = Some (processFile_bound f) /\
             determineReportHandler filepath = processFile_bound f) /\
  (filepath = None \/ filepath = Some EmptyString ->
   determineReportHandler filepath = processResponse_bound /\
   match format with
   | None => determineStatsHandler format filepath = None
   | Some text =>
       exists h, determineStatsHandler format filepath = Some h /\
                 (h = processJSON_bound \/ h = processResponse_bound) /\
                 (h = processJSON_bound
                  <-> exists j s o n,
                      text = String j (String s (String o (String n EmptyString))) /\
                      (j = "j" \/ j = "J")%char /\ (s = "s" \/ s = "S")%char /\
                      (o = "o" \/ o = "O")%char /\ (n = "n" \/ n = "N")%char)
   end).
Proof.
  split.
  - intros f -> Hf. apply String.eqb_neq in Hf. unfold determineStatsHandler.
    simpl. now rewrite Hf.
  - intros Hf.
    assert (E : determineStatsHandler format filepath
                = match format with
                  | Some text =>
                      Some (if (toLowerCase text =? "json")%string then processJSON_bound
                            else processResponse_bound)
                  | None => None
                  end) by (destruct Hf as [-> | ->]; reflexivity).
    split; [destruct Hf as [-> | ->]; reflexivity|].
    rewrite E. destruct format as [text|]; [|reflexivity].
    eexists. split; [reflexivity|]. rewrite <- toLowerCase_json.
    destruct (String.eqb_spec (toLowerCase text) "json"); split; auto; split;
      congruence.
Qed.

(** ** From a descriptor to the wire *)

Section Wire.
Context {P : Platform}.
Variable c : client.
Variable env : environment.




End Wire.

(** ** Whole calls *)

Section Calls.
Context {P : Platform}.
Variable c : client.
Variable env : environment.

(** *** The cases of a call *)

(** A property of every submission that returns follows from one step
    of the chain over a [submit] that has the property. *)
Lemma criteoApiRequest_run (Spec : descriptor -> state -> submission -> Prop) :
  (forall submit r st res,
      (forall r' st' res', submit r' st' = Some res' -> Spec r' st' res') ->
      chain c env submit r st = Some res -> Spec r st res) ->
  forall fuel r st res, criteoApiRequest c env fuel r st = Some res -> Spec r st res.
Proof.
  intros Hstep. induction fuel as [|fuel IH]; intros r st res; [discriminate|].
  simpl. apply Hstep. exact IH.
Qed.

Lemma attempt_cases submit r st st1 p1 :
  attempt c env submit r st = Some (st1, p1) ->
  (checkAuthentication r st = true /\ executeRequest c env r st = (st1, p1)) \/
  (checkAuthentication r st = false /\ r_path r <> "/oauth2/token"%string /\
   exists ra sta pa,
     submit (auth_descriptor c false) (emit EvAuthenticate st) = Some (ra, sta, pa) /\
     then_execute c env r sta pa = (st1, p1)).
Proof.
  unfold attempt, gate_catch_authenticate.
  destruct (checkAuthentication r st) eqn:G.
  - cbn [then_execute]. intros [= H]. now left.
  - unfold authenticate.
    destruct (submit _ _) as [[[ra sta] pa]|] eqn:E; [|discriminate].
    intros [= H]. right. split; [reflexivity|]. split; [|eauto 6].
    unfold checkAuthentication in G. apply orb_false_iff in G.
    destruct G as [_ G]. now apply String.eqb_neq.
Qed.

Lemma chain_cases submit r st res :
  chain c env submit r st = Some res ->
  exists st1 p1,
    attempt c env submit r st = Some (st1, p1) /\
    ((res = then_settle r st1 p1 /\
      match p1 with
      | Rejected e => (indexOf (Error_toString e) "401" >? -1)%Z && negb (r_retry r) = false
      | _ => True
      end) \/
     (exists e r2 st2 p2,
         p1 = Rejected e /\
         (indexOf (Error_toString e) "401" >? -1)%Z = true /\ r_retry r = false /\
         submit (set_retry r) (emit (EvRequeue (r_path r)) st1) = Some (r2, st2, p2) /\
         res = then_settle r2 st2 p2)).
Proof.
  unfold chain. destruct (attempt c env submit r st) as [[st1 p1]|]; [|discriminate].
  intros H. exists st1, p1. split; [reflexivity|].
  destruct p1 as [v|e|]; cbn [catch_requeue] in H.
  - injection H as <-. now left.
  - unfold decideWhetherToRequeue in H.
    destruct ((indexOf (Error_toString e) "401" >? -1)%Z && negb (r_retry r)) eqn:D.
    + destruct (submit _ _) as [[[r2 st2] p2]|] eqn:E; [|discriminate].
      injection H as <-. right. apply andb_true_iff in D. destruct D as [D1 D2].
      apply negb_true_iff in D2. exists e, r2, st2, p2. auto.
    + injection H as <-. now left.
  - injection H as <-. now left.
Qed.

(** *** What a stage does to the state *)



Lemma executeRequest_extends r st :
  exists tail, log (fst (executeRequest c env r st)) = log st ++ tail.
Proof. destruct (executeRequest_trace c env r st) as (o & tail & -> & _). eauto. Qed.

Lemma executeRequest_token r st :
  r_handler r <> processAuth_bound ->
  token (fst (executeRequest c env r st)) = token st.
Proof.
  intros Hh. unfold executeRequest.
  match goal with |- context [send c env ?m ?req ?s] =>
    pose proof (send_token c env m req s) as Ht; destruct (send c env m req s) as [st1 [res|err]]
  end; cbn [fst] in Ht.
  - now rewrite run_handler_token.
  - exact Ht.
Qed.





Lemma then_settle_extends r st p :
  exists tail, log (snd (fst (then_settle r st p))) = log st ++ tail.
Proof.
  destruct p as [v|e|]; cbn [then_settle]; unfold resolveRequest, rejectRequest;
    destruct (r_callback r && negb (r_callbackExecuted r)); cbn [fst snd];
    rewrite ?log_emit; eauto using app_nil_r.
  all: exists []; now rewrite app_nil_r.
Qed.

Lemma then_settle_fields r st p :
  let r' := fst (fst (then_settle r st p)) in
  r_method r' = r_method r /\ r_path r' = r_path r /\ r_query r' = r_query r /\
  r_body r' = r_body r /\ r_headers r' = r_headers r /\ r_handler r' = r_handler r /\
  r_callback r' = r_callback r /\ r_retry r' = r_retry r /\
  (r_callbackExecuted r = true -> r_callbackExecuted r' = true).
Proof.
  destruct p as [v|e|]; cbn [then_settle]; unfold resolveRequest, rejectRequest;
    destruct (r_callback r && negb (r_callbackExecuted r)); cbn; repeat split; auto.
Qed.

Lemma extends_executions q st st' tail :
  log st' = log st ++ tail -> executions q (log st) <= executions q (log st').
Proof. intros ->. unfold executions. rewrite count_app. lia. Qed.

(** *** The nesting of the calls *)

(** Every request fails with a text that holds 401: the two passes and
    the retried authentication of each nest four calls. *)
Lemma unreachable_three_calls r :
  r_path r <> "/oauth2/token"%string -> r_retry r = false ->
  criteoApiRequest c {| net := fun _ _ => NetError "401";
                        writeFile_error := fun _ _ _ => None |} 3 r initial_state = None.
Proof.
  intros Hp Hr. apply String.eqb_neq in Hp.
  cbn [criteoApiRequest]. unfold chain at 1. unfold attempt at 1.
  unfold gate_catch_authenticate at 1. unfold checkAuthentication at 1.
  cbn [token initial_state truthy]. rewrite Hp. cbn [negb andb orb String.eqb].
  unfold authenticate at 1.
  set (inner := chain _ _ _ (auth_descriptor c false) _).
  assert (E : exists st1 e, inner = Some (set_retry (auth_descriptor c false), st1, Rejected e)
                            /\ (indexOf (Error_toString e) "401" >? -1)%Z = true).
  { eexists _, _. split; reflexivity. }
  destruct E as (st1 & e & -> & He).
  cbn [then_execute catch_requeue]. unfold decideWhetherToRequeue at 1.
  rewrite He, Hr. cbn [negb andb].
  unfold chain at 1. unfold attempt at 1. unfold gate_catch_authenticate at 1.
  unfold checkAuthentication at 1. cbn [set_retry r_retry r_path]. rewrite Hp, andb_false_r.
  cbn [orb]. unfold authenticate at 1.
  set (inner := chain _ _ _ (auth_descriptor c false) _).
  assert (E : inner = None).
  { subst inner. unfold chain, attempt, gate_catch_authenticate, checkAuthentication.
    cbn [auth_descriptor r_path r_retry]. rewrite String.eqb_refl, orb_true_r.
    reflexivity. }
  now rewrite E.
Qed.

(** X7.  [criteoApiRequest] always returns: the calls it makes to itself
    through [authenticate] and [decideWhetherToRequeue] nest at most
    four deep, so a bound of four gives a result and a larger bound gives
    the same one.  Four is needed: for a descriptor of another path than
    the token endpoint, not yet marked, a client without a token and a
    network whose every failure mentions 401 exhaust a bound of three. *)
Theorem nesting_is_bounded k r st :
  (exists res, criteoApiRequest c env 4 r st = Some res) /\
  criteoApiRequest c env (4 + k) r st = criteoApiRequest c env 4 r st /\
  (r_path r <> "/oauth2/token"%string -> r_retry r = false ->
   criteoApiRequest c {| net := fun _ _ => NetError "401";
                         writeFile_error := fun _ _ _ => None |} 3 r initial_state = None).
Proof.
  split; [|split].
  - destruct (criteoApiRequest_ok c env 4 r st) as (res & H & _);
      [pose proof (depth_le_3 r); lia | eauto].
  - apply fuel_irrelevant; pose proof (depth_le_3 r); lia.
  - apply unreachable_three_calls.
Qed.

(** *** The descriptor after a call *)

Lemma chain_fields submit r st res :
  (forall r' st' res', submit r' st' = Some res' ->
     let r2 := fst (fst res') in
     r_method r2 = r_method r' /\ r_path r2 = r_path r' /\ r_query r2 = r_query r' /\
     r_body r2 = r_body r' /\ r_headers r2 = r_headers r' /\ r_handler r2 = r_handler r' /\
     r_callback r2 = r_callback r' /\ (r_retry r' = true -> r_retry r2 = true) /\
     (r_callbackExecuted r' = true -> r_callbackExecuted r2 = true)) ->
  chain c env submit r st = Some res ->
  let r2 := fst (fst res) in
  r_method r2 = r_method r /\ r_path r2 = r_path r /\ r_query r2 = r_query r /\
  r_body r2 = r_body r /\ r_headers r2 = r_headers r /\ r_handler r2 = r_handler r /\
  r_callback r2 = r_callback r /\ (r_retry r = true -> r_retry r2 = true) /\
  (r_callbackExecuted r = true -> r_callbackExecuted r2 = true).
Proof.
  intros Hsub Hres.
  destruct (chain_cases _ _ _ _ Hres) as (st1 & p1 & _ & [[-> _]|Hre]).
  - destruct (then_settle_fields r st1 p1) as (H1 & H2 & H3 & H4 & H5 & H6 & H7 & H8 & H9).
    cbv zeta. rewrite H8. repeat split; auto.
  - destruct Hre as (e & r2 & st2 & p2 & _ & _ & Hr & Hs & ->).
    specialize (Hsub _ _ _ Hs). cbn [fst snd set_retry r_method r_path r_query r_body
      r_headers r_handler r_callback r_retry r_callbackExecuted] in Hsub.
    destruct Hsub as (S1 & S2 & S3 & S4 & S5 & S6 & S7 & S8 & S9).
    destruct (then_settle_fields r2 st2 p2) as (H1 & H2 & H3 & H4 & H5 & H6 & H7 & H8 & H9).
    cbv zeta. rewrite H1, H2, H3, H4, H5, H6, H7, H8. repeat split; auto.
Qed.

(** X8.  Of the descriptor a call works on, the pipeline writes the two
    flags only: the method, path, query, body, headers, handler and
    callback it returns are those it was given, retry included, and a
    flag that was raised stays raised. *)
Theorem only_the_flags_change k r st :
  exists r' st' p,
    criteoApiRequest c env (4 + k) r st = Some (r', st', p) /\
    r_method r' = r_method r /\ r_path r' = r_path r /\ r_query r' = r_query r /\
    r_body r' = r_body r /\ r_headers r' = r_headers r /\ r_handler r' = r_handler r /\
    r_callback r' = r_callback r /\
    (r_retry r = true -> r_retry r' = true) /\
    (r_callbackExecuted r = true -> r_callbackExecuted r' = true).
Proof.
  destruct (criteoApiRequest_ok c env (4 + k) r st) as ([[r' st'] p] & Hrun & _);
    [pose proof (depth_le_3 r); lia|].
  exists r', st', p. split; [exact Hrun|].
  exact (criteoApiRequest_run _ chain_fields _ _ _ _ Hrun).
Qed.

(** *** The trace only grows *)

Lemma chain_extends submit r st res :
  (forall r' st' res', submit r' st' = Some res' ->
                       exists tail, log (snd (fst res')) = log st' ++ tail) ->
  chain c env submit r st = Some res ->
  exists st1 p1 tail,
    attempt c env submit r st = Some (st1, p1) /\
    log (snd (fst res)) = log st1 ++ tail /\
    exists tail1, log st1 = log st ++ tail1.
Proof.
  intros Hsub Hres.
  destruct (chain_cases _ _ _ _ Hres) as (st1 & p1 & Hatt & Hcase).
  exists st1, p1.
  assert (H1 : exists tail1, log st1 = log st ++ tail1).
  { destruct (attempt_cases _ _ _ _ _ Hatt) as [[_ He]|(_ & _ & ra & sta & pa & Hs & He)].
    - destruct (executeRequest_extends r st) as (t & Ht). rewrite He in Ht. eauto.
    - destruct (Hsub _ _ _ Hs) as (t & Ht). cbn [fst snd] in Ht.
      rewrite log_emit, <- app_assoc in Ht.
      destruct pa as [v|e|]; cbn [then_execute] in He.
      + destruct (executeRequest_extends r sta) as (t2 & Ht2). rewrite He in Ht2.
        cbn [fst] in Ht2. rewrite Ht2, Ht, <- app_assoc. eauto.
      + injection He as <- _. eauto.
      + injection He as <- _. eauto. }
  destruct Hcase as [[-> _]|(e & r2 & st2 & p2 & _ & _ & _ & Hs & ->)].
  - destruct (then_settle_extends r st1 p1) as (t & Ht). eauto.
  - destruct (Hsub _ _ _ Hs) as (t & Ht). cbn [fst snd] in Ht.
    destruct (then_settle_extends r2 st2 p2) as (t2 & Ht2).
    rewrite log_emit, <- app_assoc in Ht.
    exists (([EvRequeue (r_path r)] ++ t) ++ t2). split; [exact Hatt|].
    split; [|exact H1]. rewrite Ht2, Ht, <- !app_assoc. reflexivity.
Qed.


(** *** How many requests a call sends *)




(** *** A call that passes the gate and is not resubmitted *)


(** *** When a call is resubmitted *)

(** X11.  The retry decision as the code takes it.  The descriptor a
    call returns is marked exactly when it was marked before or its
    first attempt failed with an error whose rendering holds the text
    401, whatever kind of failure it is; the descriptor is resubmitted,
    once, exactly when the attempt failed so and the descriptor was not
    marked; and otherwise the outcome of the first attempt is settled as
    it is. *)
Theorem retry_criterion k r st :
  exists st1 p1 r' st' p,
    attempt c env (criteoApiRequest c env (3 + k)) r st = Some (st1, p1) /\
    criteoApiRequest c env (4 + k) r st = Some (r', st', p) /\
    let reads_as_401 :=
      match p1 with
      | Rejected e => (indexOf (Error_toString e) "401" >? -1)%Z
      | _ => false
      end in
    r_retry r' = r_retry r || reads_as_401 /\
    requeues (r_path r) (log st')
    = requeues (r_path r) (log st) + (if reads_as_401 && negb (r_retry r) then 1 else 0) /\
    (reads_as_401 && negb (r_retry r) = false -> (r', st', p) = then_settle r st1 p1).
Proof.
  destruct (criteoApiRequest_unfold c env k r st) as (st1 & p1 & Hatt & Hp1 & Hrun).
  destruct (criteoApiRequest_ok c env (4 + k) r st) as ([[r' st'] p] & Hrun' & Hok);
    [pose proof (depth_le_3 r); lia|].
  destruct Hok as (_ & _ & _ & _ & Hrq & _).
  exists st1, p1, r', st', p. split; [exact Hatt|]. split; [exact Hrun'|].
  rewrite Hrun' in Hrun. cbv zeta.
  assert (Hsame : forall p0, Some (r', st', p) = Some (then_settle r st1 p0) ->
                             r_retry r' = r_retry r).
  { intros p0 [= E]. pose proof (then_settle_fields r st1 p0) as F.
    rewrite <- E in F. cbn [fst] in F. tauto. }
  destruct p1 as [v|e|]; [| |contradiction]; cbv beta iota in Hrun.
  - pose proof (Hsame _ Hrun) as Hf. rewrite Hrq, Hf, orb_false_r.
    destruct (r_retry r); simpl; split; auto; split; auto; intros _;
      injection Hrun as E; exact E.
  - destruct ((indexOf (Error_toString e) "401" >? -1)%Z && negb (r_retry r)) eqn:D.
    + apply andb_true_iff in D. destruct D as [D1 D2]. apply negb_true_iff in D2.
      destruct (attempt c env _ (set_retry r) _) as [[st2 p2]|]; [|discriminate].
      injection Hrun as Hrun. pose proof (then_settle_fields (set_retry r) st2 p2) as F.
      rewrite <- Hrun in F. cbn [fst set_retry r_retry] in F.
      assert (Hf : r_retry r' = true) by tauto.
      rewrite Hrq, Hf, D1, D2. simpl. repeat split. discriminate.
    + pose proof (Hsame _ Hrun) as Hf. rewrite Hrq, Hf.
      apply andb_false_iff in D. split; [|split].
      * destruct D as [-> | D]; [now rewrite orb_false_r|].
        apply negb_false_iff in D. now rewrite D.
      * destruct (r_retry r); cbn [negb]; rewrite ?andb_false_r, ?andb_true_r;
          reflexivity.
      * intros _. injection Hrun as E. exact E.
Qed.

(** *** A call that does not pass the gate *)


(** *** The token after a successful authentication *)




(** *** The token changes only at the token endpoint *)

Lemma chain_token_kept submit r st res :
  (forall r' st' res', submit r' st' = Some res' -> token_kept r' st' res') ->
  chain c env submit r st = Some res -> token_kept r st res.
Proof.
  intros Hsub Hres.
  destruct (chain_extends submit r st res) as (st1 & p1 & t & Hatt & Ht & t1 & Ht1);
    [intros r0 st0 res0 H0; exact (proj1 (Hsub _ _ _ H0)) | exact Hres |].
  split; [exists (t1 ++ t); now rewrite Ht, Ht1, <- app_assoc|].
  intros Hwf Hex.
  pose proof (extends_executions "/oauth2/token" _ _ _ Ht) as M2.
  pose proof (extends_executions "/oauth2/token" _ _ _ Ht1) as M1.
  assert (E1 : executions "/oauth2/token" (log st1) = executions "/oauth2/token" (log st))
    by lia.
  assert (E2 : executions "/oauth2/token" (log (snd (fst res)))
               = executions "/oauth2/token" (log st1)) by lia.
  assert (T1 : token st1 = token st).
  { destruct (attempt_cases _ _ _ _ _ Hatt)
      as [[_ He]|(_ & Hp & ra & sta & pa & Hs & He)].
    - pose proof (executeRequest_token r st) as H.
      destruct (executeRequest_counts c env r st) as (_ & _ & _ & Hc & _).
      rewrite He in H, Hc. cbn [fst] in H, Hc. apply H. intros Hh.
      specialize (Hc "/oauth2/token"%string).
      rewrite (Hwf Hh), String.eqb_refl in Hc. lia.
    - destruct (Hsub _ _ _ Hs) as [(ta & Hta) Hk]. cbn [fst snd] in Hta, Hk.
      assert (Hwf' : r_handler r <> processAuth_bound) by (intros Hh; now apply Hp, Hwf).
      assert (X : executions "/oauth2/token" (log sta) <= executions "/oauth2/token" (log st1)
                  /\ token st1 = token sta).
      { destruct pa as [v|e|]; cbn [then_execute] in He.
        - pose proof (executeRequest_token r sta Hwf') as H1.
          destruct (executeRequest_extends r sta) as (t2 & Ht2).
          rewrite He in H1, Ht2. cbn [fst] in H1, Ht2.
          split; [exact (extends_executions _ _ _ _ Ht2) | exact H1].
        - injection He as <- _. split; [lia | reflexivity].
        - injection He as <- _. split; [lia | reflexivity]. }
      destruct X as [X1 X2].
      pose proof (extends_executions "/oauth2/token" _ _ _ Hta) as M3.
      unfold executions in M3 at 1. rewrite count_emit in M3. cbn [is_execute] in M3.
      fold (executions "/oauth2/token") in M3.
      rewrite X2, Hk; [reflexivity | reflexivity |].
      unfold executions at 2. rewrite count_emit. cbn [is_execute].
      fold (executions "/oauth2/token"). lia. }
  destruct (chain_cases _ _ _ _ Hres) as (st1' & p1' & Hatt' & Hcase).
  rewrite Hatt in Hatt'. injection Hatt' as <- <-.
  destruct Hcase as [[-> _]|(e & r2 & st2 & p2 & _ & _ & _ & Hs & ->)].
  - destruct (then_settle_token r st1 p1) as [-> _]. exact T1.
  - destruct (then_settle_token r2 st2 p2) as [-> _].
    pose proof (then_settle_counts r2 st2 p2) as Hc.
    destruct (then_settle r2 st2 p2) as [[r3 st3] p3]. cbn [fst snd] in *.
    destruct Hc as (_ & _ & Hc). destruct (Hc "/oauth2/token"%string) as [Hc1 _].
    destruct (Hsub _ _ _ Hs) as [(ta & Hta) Hk]. cbn [fst snd] in Hta, Hk.
    cbn [set_retry r_handler r_path] in Hk.
    rewrite Hk; [exact T1 | exact Hwf |].
    unfold executions at 2. rewrite count_emit. cbn [is_execute].
    fold (executions "/oauth2/token"). lia.
Qed.

(** X15.  For a descriptor that does not pair [processAuth] with another
    path than the token endpoint, as no method of the client does: over
    a whole call the token the client holds changes only if a request to
    the token endpoint was executed.  A call during which none was
    leaves the token as it found it, whatever the responses were. *)
Theorem token_changes_only_at_token_endpoint k r st :
  (r_handler r = processAuth_bound -> r_path r = "/oauth2/token"%string) ->
  exists r' st' p,
    criteoApiRequest c env (4 + k) r st = Some (r', st', p) /\
    executions "/oauth2/token" (log st) <= executions "/oauth2/token" (log st') /\
    (executions "/oauth2/token" (log st') = executions "/oauth2/token" (log st) ->
     token st' = token st).
Proof.
  intros Hwf.
  destruct (criteoApiRequest_ok c env (4 + k) r st) as ([[r' st'] p] & Hrun & _);
    [pose proof (depth_le_3 r); lia|].
  exists r', st', p. split; [exact Hrun|].
  destruct (criteoApiRequest_run _ chain_token_kept _ _ _ _ Hrun) as [(t & Ht) Hk].
  cbn [fst snd] in Ht, Hk. split; [exact (extends_executions _ _ _ _ Ht)|]. now apply Hk.
Qed.

(** *** A report saved to a file *)


End Calls.

(** ** With the concrete runtime *)

Lemma occurrences_app x a b :
  occurrences x (a ++ b)%string = occurrences x a + occurrences x b.
Proof. induction a as [|y a IH]; simpl; [reflexivity|]. rewrite IH. lia. Qed.

Lemma escape_char_plain y :
  occurrences "&" (URI.escape_char y) = 0 /\ occurrences "=" (URI.escape_char y) = 0.
Proof. destruct y as [[] [] [] [] [] [] [] []]; vm_compute; split; reflexivity. Qed.

Lemma encodeURIComponent_plain s :
  occurrences "&" (URI.encodeURIComponent s) = 0 /\
  occurrences "=" (URI.encodeURIComponent s) = 0.
Proof.
  induction s as [|y s [IH1 IH2]]; simpl; [split; reflexivity|].
  rewrite !occurrences_app, IH1, IH2. destruct (escape_char_plain y) as [-> ->].
  split; reflexivity.
Qed.

(** X17.  The form body of the token exchange, with the escaping the
    runtime does: whatever the identifier and the secret of the client
    are, ampersands and equals signs included, the body holds two
    ampersands and three equals signs, those that separate its three
    fields and their names from their values. *)
Theorem credentials_stay_in_their_fields (c : client) (callback : bool) :
  exists text,
    r_body (@auth_descriptor node c callback) = Some text /\
    occurrences "&" text = 2 /\ occurrences "=" text = 3.
Proof.
  eexists. split; [reflexivity|]. rewrite toFormData_cons.
  cbn [map String.concat fst snd]. rewrite !occurrences_app.
  cbn [encodeURIComponent node].
  destruct (encodeURIComponent_plain (id c)) as [-> ->].
  destruct (encodeURIComponent_plain (secret c)) as [-> ->].
  split; reflexivity.
Qed.

(** X18.  [startAdSets] and [stopAdSets] send the same body for the same
    ad sets, and the text [JSON.stringify] makes of the payload is read
    back by [JSON.parse] as that payload: one object of type [AdSetId]
    for each identifier, in order, with the identifier as a string,
    whatever characters it holds. *)
Theorem ad_sets_body_is_read_back (c : client) (adsets : list string) (callback : bool) :
  exists text,
    r_body (@startAdSets_r node c adsets callback) = Some text /\
    r_body (@stopAdSets_r node c adsets callback) = Some text /\
    JSON.parse text
    = inl (JObject [("data",
                     JArray (map (fun adset =>
                                    JObject [("type", JString "AdSetId");
                                             ("id", JString adset)])
                                 adsets))]).
Proof.
  eexists. split; [reflexivity|]. split; [reflexivity|].
  apply JSONFacts.parse_stringify_well_formed.
  cbn [JSON.well_formed JSON.keys map fst snd JSON.ordered].
  split; [split; [intros k' []|exact I]|]. split; [|exact I].
  induction adsets as [|a adsets IH]; [exact I|].
  cbn [map]. split; [|exact IH].
  cbn [JSON.well_formed JSON.keys map fst snd JSON.ordered].
  split; [|repeat split].
  split; [|split; [intros k' []|exact I]].
  intros k' [<-|[]]. split; [discriminate | reflexivity].
Qed.

(** ** Concrete runs *)

Import Scenario.

(** C1, as stated, fails: 299 lies in 200..299, and the JSON handler
    rejects it with the status error. *)
Lemma status_299_rejected :
  (200 <= 299 <= 299)%N /\
  status_accepted {| statusCode := 299; body := "" |} = false /\
  processJSON {| statusCode := 299; body := "" |} initial_state
  = (initial_state, Rejected (bad_response {| statusCode := 299; body := "" |})).
Proof. split; [lia|]. split; reflexivity. Qed.

(** The status test at the JSON handler and a 204. *)
Lemma status_check_witness :
  processJSON_bound <> processAuth_bound /\
  (204 < 1000)%N /\
  status_accepted {| statusCode := 204; body := "" |} = true.
Proof.
  assert (H1 : processJSON_bound <> processAuth_bound) by discriminate.
  assert (H2 : (statusCode {| statusCode := 204; body := "" |} < 1000)%N) by reflexivity.
  split; [exact H1|]. split; [exact H2|].
  destruct (status_check (answers []) processJSON_bound
                         {| statusCode := 204; body := "" |} initial_state H1 H2)
    as (_ & _ & H & _).
  apply H. right. reflexivity.
Defined.

(** A 500 through the file handler: the trimmed body is on the disk. *)
Lemma rejected_status_still_writes_file_witness :
  status_accepted {| statusCode := 500; body := " oops " |} = false /\
  exists st',
    processFile (answers []) "report.csv" {| statusCode := 500; body := " oops " |}
                initial_state
    = (st', Rejected (bad_response {| statusCode := 500; body := " oops " |})) /\
    obj_get (files st') "report.csv" = Some "oops".
Proof.
  assert (H : status_accepted {| statusCode := 500; body := " oops " |} = false)
    by reflexivity.
  split; [exact H|].
  destruct (rejected_status_still_writes_file (answers []) "report.csv"
              {| statusCode := 500; body := " oops " |} initial_state H)
    as (st' & Hrun & _ & Hfile).
  exists st'. split; [exact Hrun|]. apply Hfile. reflexivity.
Defined.

(** C2: the token endpoint answers 500 with an error report, a JSON text
    without [access_token].  [processAuth] fulfils, and so does
    [authenticate]; the stored token [T0] is overwritten with
    [undefined]. *)
Lemma processAuth_accepts_error_report :
  processAuth {| statusCode := 500; body := error_body |} (stored "T0")
  = (set_token Undefined (stored "T0"), Fulfilled Undefined) /\
  option_map snd authenticate_500 = Some (Fulfilled Undefined) /\
  option_map (fun res => token (fst res)) authenticate_500 = Some Undefined.
Proof. repeat split; reflexivity. Qed.

(** C3, as stated, fails: after the 401 the flag is raised and
    [authenticate] is entered once, but the token exchange fails and the
    request is not executed a second time. *)
Lemma no_second_execution_when_reauthentication_fails :
  retried run_expired_then_unreachable = Some true /\
  requeues path (trace run_expired_then_unreachable) = 1 /\
  authentications (trace run_expired_then_unreachable) = 1 /\
  executions path (trace run_expired_then_unreachable) = 1 /\
  outcome run_expired_then_unreachable = Some (Rejected (Error "Error: socket hang up")).
Proof. repeat split; reflexivity. Qed.

(** C5, as stated, fails: a callback was supplied and the call fails
    with a 500; the error goes to the callback and the promise is never
    settled. *)
Lemma promise_pending_after_failure_with_callback :
  outcome run_500_with_callback = Some Pending /\
  callbacks (trace run_500_with_callback)
  = [CbError (bad_response {| statusCode := 500; body := "oops" |})].
Proof. split; reflexivity. Qed.

(** C6: the first answer is a 500 whose body mentions 401.  The
    descriptor is marked, the client authenticates again and the request
    is executed a second time. *)
Lemma status_500_mentioning_401_is_retried :
  retried run_500_mentioning_401 = Some true /\
  requeues path (trace run_500_mentioning_401) = 1 /\
  authentications (trace run_500_mentioning_401) = 1 /\
  executions path (trace run_500_mentioning_401) = 2 /\
  outcome run_500_mentioning_401 = Some (Fulfilled listing).
Proof. repeat split; reflexivity. Qed.

(** C7: the authentication of the first pass fails, with a transport
    error whose text contains 401.  The descriptor is resubmitted,
    [authenticate] is entered a second time, and the call succeeds. *)
Lemma failed_authentication_is_retried :
  option_map snd
    (gate_catch_authenticate api (criteoApiRequest api refused_twice 3)
                             (accounts false) initial_state)
  = Some (Rejected (Error "Error: connect ECONNREFUSED 2001:db8::401:443")) /\
  retried run_refused_twice = Some true /\
  requeues path (trace run_refused_twice) = 1 /\
  authentications (trace run_refused_twice) = 2 /\
  outcome run_refused_twice = Some (Fulfilled listing).
Proof. repeat split; reflexivity. Qed.

(** The call with a callback that gets a 500: the callback is called
    once, with the status error. *)
Lemma callback_fires_exactly_once_witness :
  r_callback (accounts true) = true /\
  r_callbackExecuted (accounts true) = false /\
  exists r' st' p,
    criteoApiRequest api (answers [status 500 "oops"]) 4 (accounts true) (stored "T0")
    = Some (r', st', p) /\
    r_callbackExecuted r' = true /\
    callbacks (log st') = [CbError (bad_response {| statusCode := 500; body := "oops" |})].
Proof.
  split; [reflexivity|]. split; [reflexivity|].
  destruct (callback_fires_exactly_once api (answers [status 500 "oops"]) 0
              (accounts true) (stored "T0") eq_refl eq_refl)
    as (st1 & p1 & r' & st' & p & Hatt & Hrun & Hfired & Hcalled).
  exists r', st', p. split; [exact Hrun|]. split; [exact Hfired|].
  assert (Hp1 : p1 = Rejected (bad_response {| statusCode := 500; body := "oops" |})).
  { vm_compute in Hatt. injection Hatt as _ <-. reflexivity. }
  rewrite Hp1 in Hcalled. exact Hcalled.
Defined.

(** The run with the stale token: a first 401, then one re-authentication. *)
Lemma retried_at_most_once_witness :
  r_path (accounts false) <> "/oauth2/token" /\
  r_retry (accounts false) = false /\
  statusCode {| statusCode := 401; body := "expired" |} = 401%N /\
  attempt api expired_then_unreachable
          (criteoApiRequest api expired_then_unreachable 3)
          (accounts false) (stored "T0")
  = Some (after_401, Rejected (bad_response {| statusCode := 401; body := "expired" |})) /\
  exists r' st' p,
    criteoApiRequest api expired_then_unreachable 4 (accounts false) (stored "T0")
    = Some (r', st', p) /\
    r_retry r' = true /\
    authentications (log st') = authentications (log after_401) + 1.
Proof.
  assert (H1 : r_path (accounts false) <> "/oauth2/token") by discriminate.
  assert (H2 : attempt api expired_then_unreachable
                       (criteoApiRequest api expired_then_unreachable 3)
                       (accounts false) (stored "T0")
               = Some (after_401,
                       Rejected (bad_response {| statusCode := 401; body := "expired" |})))
    by reflexivity.
  split; [exact H1|]. split; [reflexivity|]. split; [reflexivity|]. split; [exact H2|].
  destruct (retried_at_most_once api expired_then_unreachable 0 (accounts false)
              (stored "T0"))
    as (r' & st' & p & Hrun & _ & _ & Hafter).
  destruct (Hafter after_401 {| statusCode := 401; body := "expired" |}
                   H1 eq_refl eq_refl H2)
    as (st2 & p2 & _ & Hflag & Hauth & _).
  exists r', st', p. split; [exact Hrun|]. split; [exact Hflag | exact Hauth].
Defined.



(** ** Concrete runs of the endpoint methods *)

(** A body with white space around it through the raw handler. *)
Lemma processResponse_accepted_witness :
  status_accepted {| statusCode := 200; body := " a,b " |} = true /\
  processResponse {| statusCode := 200; body := " a,b " |} initial_state
  = (initial_state, Fulfilled (JString "a,b")).
Proof.
  assert (H : status_accepted {| statusCode := 200; body := " a,b " |} = true)
    by reflexivity.
  split; [exact H|].
  destruct (processResponse_accepted {| statusCode := 200; body := " a,b " |}
                                     initial_state H) as (v & Hrun & _ & Hv & _).
  rewrite Hrun, Hv; [reflexivity | discriminate].
Defined.





(** The token endpoint cannot be reached: the stored token stays. *)
Lemma failed_authentication_keeps_token_witness :
  exists st' e,
    authenticate api (criteoApiRequest api (answers [NetError "Error: socket hang up"]) 2)
                 false (stored "T0")
    = Some (st', Rejected e) /\
    token st' = JString "T0".
Proof.
  eexists _, _. split; [vm_compute; reflexivity|].
  apply (failed_authentication_keeps_token api (answers [NetError "Error: socket hang up"]) 0
           (stored "T0") _ _ eq_refl).
  intros v H. discriminate H.
Defined.

(** [getAccounts] answered with a 500: no token exchange, the token stays. *)
Lemma token_changes_only_at_token_endpoint_witness :
  (r_handler (getAccounts_r false) = processAuth_bound ->
   r_path (getAccounts_r false) = "/oauth2/token"%string) /\
  exists r' st' p,
    getAccounts api (answers [status 500 "oops"]) 4 false (stored "T0")
    = Some (r', st', p) /\
    token st' = JString "T0".
Proof.
  assert (H : r_handler (getAccounts_r false) = processAuth_bound ->
              r_path (getAccounts_r false) = "/oauth2/token"%string)
    by (intros H; discriminate H).
  split; [exact H|].
  destruct (token_changes_only_at_token_endpoint api (answers [status 500 "oops"]) 0
              (getAccounts_r false) (stored "T0") H)
    as (r' & st' & p & Hrun & _ & Htok).
  exists r', st', p. split; [exact Hrun|]. apply Htok.
  change (criteoApiRequest api (answers [status 500 "oops"]) (4 + 0)
                           (getAccounts_r false) (stored "T0"))
    with (criteoApiRequest api (answers [status 500 "oops"]) 4
                           (getAccounts_r false) (stored "T0")) in Hrun.
  vm_compute in Hrun. injection Hrun as _ <- _. reflexivity.
Defined.


(** The bound of six requests is reached: each of the two passes
    authenticates, and each authentication is retried. *)
Lemma six_requests_are_reached :
  option_map (fun res => requests (snd (fst res)))
    (getAccounts api
       (answers [refused; status 200 (token_body "T1"); status 401 "expired";
                 refused; status 200 (token_body "T2");
                 status 200 (JSON.stringify listing)])
       4 false initial_state)
  = Some 6.
Proof. reflexivity. Qed.
